(** * Taxonomy-validated metadata extraction: a shallow embedding

    This development embeds the executable core of the notebook
    [cohort_2/week5/1. Generate Dataset.ipynb]:

    - the pydantic model [ItemMetadata] with its two [model_validator]s;
    - the retrying, semaphore-guarded task [generate_dataset_label] and the
      [gather] that joins one task per dataset row;
    - the flattening stage ([flattened_results], [flatten_item],
      [hf_dataset_items]) with its JSON serialisation of attributes and its
      rounded random price.

    Python values are modelled as the code has them: a [str] is a sequence of
    code points, a [dict] is an insertion-ordered association list, an
    exception is an explicit error result, and the event loop is a step
    function over an explicit state.  Definitions come first, theorems
    after. *)

From Stdlib Require Import Ascii.
From Stdlib Require Import ZArith QArith Lia Lqa Permutation Sorted.
From stdpp Require Import base decidable option list numbers strings sorting.

Set Default Proof Using "Type".
Local Open Scope Z_scope.

(** ** Python values *)

Module Py.

(** A Python [str] is a sequence of Unicode code points. *)
Definition char : Type := Z.
Definition str : Type := list char.

(** The code points a [str] can hold, and the two halves of a surrogate
    pair among them. *)
Definition code_point (c : char) : Prop := 0 ≤ c < 1114112.
Definition high_surrogate (c : char) : Prop := 55296 ≤ c ≤ 56319.
Definition low_surrogate (c : char) : Prop := 56320 ≤ c ≤ 57343.

(** No high surrogate of [s] is directly followed by a low surrogate. *)
Fixpoint unpaired (s : str) : Prop :=
  match s with
  | [] => True
  | c :: s' =>
      match s' with
      | c' :: _ => ¬ (high_surrogate c ∧ low_surrogate c')
      | [] => True
      end ∧ unpaired s'
  end.

(** A [str] of code points without a surrogate pair written as two code
    points.  Every [str] decoded from JSON text is one: the decoders join
    the two escapes of a pair into one code point. *)
Definition well_formed (s : str) : Prop := Forall code_point s ∧ unpaired s.

#[global] Instance code_point_dec c : Decision (code_point c).
Proof. unfold code_point. apply _. Defined.

#[global] Instance high_surrogate_dec c : Decision (high_surrogate c).
Proof. unfold high_surrogate. apply _. Defined.

#[global] Instance low_surrogate_dec c : Decision (low_surrogate c).
Proof. unfold low_surrogate. apply _. Defined.

#[global] Instance unpaired_dec s : Decision (unpaired s).
Proof. induction s as [|c [|c' s] IH]; simpl; apply _. Defined.

#[global] Instance well_formed_dec s : Decision (well_formed s).
Proof. unfold well_formed. apply _. Defined.

(** [ord c] of an 8-bit literal character. *)
Definition ord (a : Ascii.ascii) : char := Z.of_N (Ascii.N_of_ascii a).

(** A literal of the source, read as code points. *)
Definition lit (s : String.string) : str :=
  ord <$> String.list_ascii_of_string s.

(** A [dict] with [str] keys, in insertion order. *)
Definition dict (V : Type) : Type := list (str * V).

(** [d[k]], where [None] stands for [KeyError]. *)
Fixpoint get {V} (d : dict V) (k : str) : option V :=
  match d with
  | [] => None
  | (k', v) :: d' => if decide (k' = k) then Some v else get d' k
  end.

(** [list(d.keys())]. *)
Definition keys {V} (d : dict V) : list str := d.*1.

(** [d[k] = v]: an existing key keeps its position. *)
Fixpoint set {V} (d : dict V) (k : str) (v : V) : dict V :=
  match d with
  | [] => [(k, v)]
  | (k', v') :: d' =>
      if decide (k' = k) then (k, v) :: d' else (k', v') :: set d' k v
  end.

(** [dict(pairs)]. *)
Definition of_pairs {V} (pairs : list (str * V)) : dict V :=
  foldl (fun d kv => set d kv.1 kv.2) [] pairs.

(** The parts of an f-string once formatted: literal text, a [str]
    interpolated with [{...}], and a list of [str] interpolated with
    [{...}] (printed by [repr]). *)
Inductive fragment : Type :=
| Text (s : String.string)
| Fmt (v : str)
| FmtList (vs : list str).

Definition message : Type := list fragment.

(** The result of a call that may raise: the value returned, or the
    exception raised. *)
Inductive Result (E A : Type) : Type :=
| Return (a : A)
| Raise (e : E).
Arguments Return {E A} a.
Arguments Raise {E A} e.

(** Sequencing: a raised exception skips the rest of the body. *)
#[global] Instance Result_bind {E} : MBind (Result E) := fun A B k r =>
  match r with
  | Return a => k a
  | Raise e => Raise e
  end.

End Py.

(** ** The taxonomy handed to the validators

    [process_taxonomy_file] lives in [helpers], outside the notebook; the
    validators read its result through the keys below.  The notebook's own
    outputs show the keys of [taxonomy_data] and of
    [taxonomy_data["common_attributes"]]. *)

Module Taxonomy.
Import Py.

(** [taxonomy_map[category][subcategory]]. *)
Record SubcategoryData : Type := {
  product_type : list str;
  attributes : dict (list str);
}.

(** [taxonomy_data["common_attributes"]]. *)
Record CommonAttributes : Type := {
  Size : list str;
  Color : list str;
  Material : list str;
  Pattern : list str;
  Occasion : list str;
}.

Record TaxonomyData : Type := {
  taxonomy_map : dict (dict SubcategoryData);
  common_attributes : CommonAttributes;
}.

End Taxonomy.

(** ** The pydantic model and its validators *)

Module Validator.
Import Py Taxonomy.

Record ItemAttribute : Type := {
  name : str;
  value : str;
}.

Record ItemMetadata : Type := {
  title : str;
  brand : str;
  description : str;
  category : str;
  subcategory : str;
  product_type : str;
  attributes : list ItemAttribute;
  material : str;
  pattern : str;
}.

(** [info.context]: [None] when no context was passed (or an empty one);
    [taxonomy_data] is [None] when [context["taxonomy_data"]] is falsy. *)
Record Context : Type := { taxonomy_data : option TaxonomyData }.
Record ValidationInfo : Type := { context : option Context }.

(** A validator returns its model or raises [ValueError(message)];
    pydantic reports the latter as a [ValidationError]. *)
Abbreviation ValueError msg := (Raise (E := message) msg).
Abbreviation Validated := (Result message).

(** [context={"taxonomy_data": taxonomy_data}], as the notebook passes it
    to [client.chat.completions.create]. *)
Definition with_taxonomy (td : TaxonomyData) : ValidationInfo :=
  {| context := Some {| taxonomy_data := Some td |} |}.

Definition taxonomy_required : message :=
  [Text "Taxonomy data is required for validation"].

(** [context = info.context] followed by the guard on a missing
    taxonomy, shared by both validators. *)
Definition require_taxonomy (info : ValidationInfo) : Validated TaxonomyData :=
  match context info with
  | None => ValueError taxonomy_required
  | Some ctx =>
      match taxonomy_data ctx with
      | None => ValueError taxonomy_required
      | Some td => Return td
      end
  end.

Definition pattern_error (self : ItemMetadata) (td : TaxonomyData) : message :=
  [Text "Pattern "; Fmt (pattern self);
   Text " is not a valid pattern. Valid patterns are ";
   FmtList (Pattern (common_attributes td))].

Definition material_error (self : ItemMetadata) (td : TaxonomyData) : message :=
  [Text "Material "; Fmt (material self);
   Text " is not a valid material. Valid materials are ";
   FmtList (Material (common_attributes td))].

Definition validate_material_and_pattern
    (self : ItemMetadata) (info : ValidationInfo) : Validated ItemMetadata :=
  td ← require_taxonomy info;
  if decide (pattern self ∈ Pattern (common_attributes td)) then
    if decide (material self ∈ Material (common_attributes td)) then
      Return self
    else ValueError (material_error self td)
  else ValueError (pattern_error self td).

Definition category_error (self : ItemMetadata)
    (taxonomy_map : dict (dict SubcategoryData)) : message :=
  [Text "Category "; Fmt (category self);
   Text " is not valid. Valid categories are ";
   FmtList (keys taxonomy_map)].

Definition subcategory_error (self : ItemMetadata) : message :=
  [Text "Subcategory "; Fmt (subcategory self);
   Text " does not exist under category "; Fmt (category self)].

Definition product_type_error (self : ItemMetadata)
    (subcategory_data : SubcategoryData) : message :=
  [Text "Product type "; Fmt (product_type self);
   Text " is not valid for subcategory "; Fmt (subcategory self);
   Text ". Valid types are ";
   FmtList (Taxonomy.product_type subcategory_data)].

Definition attribute_name_error (self : ItemMetadata)
    (subcategory_data : SubcategoryData) (attr : ItemAttribute) : message :=
  [Text "Attribute "; Fmt (name attr);
   Text " is not valid for subcategory "; Fmt (subcategory self);
   Text ". Valid attributes are ";
   FmtList (keys (Taxonomy.attributes subcategory_data))].

Definition attribute_value_error (attr : ItemAttribute)
    (valid_values : list str) : message :=
  [Text "Value "; Fmt (value attr);
   Text " is not valid for attribute "; Fmt (name attr);
   Text ". Valid values are "; FmtList valid_values].

(** The loop [for attr in self.attributes] of step 4. *)
Fixpoint validate_attributes (self : ItemMetadata)
    (subcategory_data : SubcategoryData) (attrs : list ItemAttribute)
    : Validated unit :=
  match attrs with
  | [] => Return tt
  | attr :: rest =>
      match get (Taxonomy.attributes subcategory_data) (name attr) with
      | None => ValueError (attribute_name_error self subcategory_data attr)
      | Some valid_values =>
          if decide (value attr ∈ valid_values) then
            validate_attributes self subcategory_data rest
          else ValueError (attribute_value_error attr valid_values)
      end
  end.

(** A test [k not in d] followed by the read [d[k]] is one [get]. *)
Definition validate_category_and_attributes
    (self : ItemMetadata) (info : ValidationInfo) : Validated ItemMetadata :=
  td ← require_taxonomy info;
  let taxonomy_map := Taxonomy.taxonomy_map td in
  (* 1. Validate category *)
  match get taxonomy_map (category self) with
  | None => ValueError (category_error self taxonomy_map)
  | Some subcategories =>
      (* 2. Validate subcategory *)
      match get subcategories (subcategory self) with
      | None => ValueError (subcategory_error self)
      | Some subcategory_data =>
          (* 3. Validate product type *)
          if decide (product_type self
                       ∈ Taxonomy.product_type subcategory_data) then
            (* 4. Validate attributes *)
            _ ← validate_attributes self subcategory_data (attributes self);
            Return self
          else ValueError (product_type_error self subcategory_data)
      end
  end.

(** Pydantic runs the [mode="after"] validators of a model in the order
    the class body declares them, each on the value the previous one
    returned, and stops at the first that raises. *)
Definition model_validate
    (self : ItemMetadata) (info : ValidationInfo) : Validated ItemMetadata :=
  self ← validate_material_and_pattern self info;
  validate_category_and_attributes self info.

End Validator.

(** ** The membership checks, one by one

    The data model's invariant on an [ItemMetadata] is a list of membership
    checks against the taxonomy.  They are stated here on their own, apart
    from the validators, so that the order in which the validators run them
    and the error each one raises can be compared with the code. *)

Module Checks.
Import Py Taxonomy Validator.

Inductive check : Type :=
| CategoryCheck
| SubcategoryCheck
| ProductTypeCheck
| AttributeNameCheck (attr : ItemAttribute)
| AttributeValueCheck (attr : ItemAttribute)
| MaterialCheck
| PatternCheck.

(** [taxonomy_map[self.category][self.subcategory]], when both keys exist. *)
Definition subcategory_data_of (td : TaxonomyData) (self : ItemMetadata)
    : option SubcategoryData :=
  subcategories ← get (taxonomy_map td) (category self);
  get subcategories (subcategory self).

(** What each check asks of the record.  A check under a key that does not
    exist does not hold. *)
Definition holds (td : TaxonomyData) (self : ItemMetadata) (c : check) : Prop :=
  match c with
  | CategoryCheck => category self ∈ keys (taxonomy_map td)
  | SubcategoryCheck =>
      match get (taxonomy_map td) (category self) with
      | Some subcategories => subcategory self ∈ keys subcategories
      | None => False
      end
  | ProductTypeCheck =>
      match subcategory_data_of td self with
      | Some sd => product_type self ∈ Taxonomy.product_type sd
      | None => False
      end
  | AttributeNameCheck attr =>
      match subcategory_data_of td self with
      | Some sd => name attr ∈ keys (Taxonomy.attributes sd)
      | None => False
      end
  | AttributeValueCheck attr =>
      match subcategory_data_of td self with
      | Some sd =>
          match get (Taxonomy.attributes sd) (name attr) with
          | Some valid_values => value attr ∈ valid_values
          | None => False
          end
      | None => False
      end
  | MaterialCheck => material self ∈ Material (common_attributes td)
  | PatternCheck => pattern self ∈ Pattern (common_attributes td)
  end.

#[global] Instance holds_dec td self c : Decision (holds td self c).
Proof. destruct c; simpl; repeat case_match; apply _. Defined.

(** The error the validators raise for a failing check: the message
    builders of the code, applied to what the code has at hand there. *)
Definition error_of (td : TaxonomyData) (self : ItemMetadata) (c : check)
    : message :=
  match c with
  | CategoryCheck => category_error self (taxonomy_map td)
  | SubcategoryCheck => subcategory_error self
  | ProductTypeCheck =>
      default [] (product_type_error self <$> subcategory_data_of td self)
  | AttributeNameCheck attr =>
      default []
        ((fun sd => attribute_name_error self sd attr)
           <$> subcategory_data_of td self)
  | AttributeValueCheck attr =>
      default []
        (sd ← subcategory_data_of td self;
         attribute_value_error attr <$> get (Taxonomy.attributes sd) (name attr))
  | MaterialCheck => material_error self td
  | PatternCheck => pattern_error self td
  end.

(** The checks of every attribute in turn: its name, then its value. *)
Definition attribute_checks (self : ItemMetadata) : list check :=
  attr ← attributes self; [AttributeNameCheck attr; AttributeValueCheck attr].

(** The order the specification lists: category first, pattern last. *)
Definition specified_order (self : ItemMetadata) : list check :=
  [CategoryCheck; SubcategoryCheck; ProductTypeCheck]
    ++ attribute_checks self ++ [MaterialCheck; PatternCheck].

(** The order the two validators run them in: the body of
    [validate_material_and_pattern], then the body of
    [validate_category_and_attributes]. *)
Definition declared_order (self : ItemMetadata) : list check :=
  [PatternCheck; MaterialCheck; CategoryCheck; SubcategoryCheck;
   ProductTypeCheck] ++ attribute_checks self.

(** Fail-fast validation along a given order: the first check that does
    not hold decides the error; with none, the record is returned. *)
Definition fail_fast (order : list check) (td : TaxonomyData)
    (self : ItemMetadata) : Validated ItemMetadata :=
  match list_find (fun c => ¬ holds td self c) order with
  | Some (_, c) => ValueError (error_of td self c)
  | None => Return self
  end.

(** What an error message tells its reader. *)
Definition states_value (msg : message) (v : str) : Prop := Fmt v ∈ msg.
Definition lists_values (msg : message) (vs : list str) : Prop :=
  FmtList vs ∈ msg.
Definition lists_any_values (msg : message) : bool :=
  existsb (fun f => match f with FmtList _ => true | _ => false end) msg.
Definition opens_with (msg : message) (field : string) : Prop :=
  head msg = Some (Text field).

End Checks.

(** ** The scenario of the specification: Women, Tops, Tank Tops *)

Module Scenario.
Import Py Taxonomy Validator Checks.

Definition tops : SubcategoryData := {|
  Taxonomy.product_type := [lit "Tank Tops"];
  Taxonomy.attributes :=
    [(lit "Sleeve Length", [lit "Sleeveless"; lit "Short"])];
|}.

Definition taxonomy : TaxonomyData := {|
  taxonomy_map := [(lit "Women", [(lit "Tops", tops)])];
  common_attributes := {|
    Size := [lit "S"; lit "M"];
    Color := [lit "Black"];
    Material := [lit "Cotton"];
    Pattern := [lit "Solid"];
    Occasion := [lit "Casual"];
  |};
|}.

Definition tank_top : ItemMetadata := {|
  title := lit "Lace Detail Sleeveless Top";
  brand := lit "H&M";
  description := lit "An elegant sleeveless top.";
  category := lit "Women";
  subcategory := lit "Tops";
  product_type := lit "Tank Tops";
  attributes := [{| name := lit "Sleeve Length"; value := lit "Sleeveless" |}];
  material := lit "Cotton";
  pattern := lit "Solid";
|}.

(** The same record with an attribute value outside the valid set. *)
Definition long_sleeved : ItemMetadata := {|
  title := title tank_top; brand := brand tank_top;
  description := description tank_top;
  category := lit "Women"; subcategory := lit "Tops";
  product_type := lit "Tank Tops";
  attributes := [{| name := lit "Sleeve Length"; value := lit "Long" |}];
  material := lit "Cotton"; pattern := lit "Solid";
|}.

(** A record whose category and whose pattern are both outside the
    taxonomy. *)
Definition wrong_category_and_pattern : ItemMetadata := {|
  title := title tank_top; brand := brand tank_top;
  description := description tank_top;
  category := lit "Pets"; subcategory := lit "Tops";
  product_type := lit "Tank Tops";
  attributes := [];
  material := lit "Cotton"; pattern := lit "Plaid";
|}.

(** A record whose subcategory does not exist under its category. *)
Definition wrong_subcategory : ItemMetadata := {|
  title := title tank_top; brand := brand tank_top;
  description := description tank_top;
  category := lit "Women"; subcategory := lit "Hats";
  product_type := lit "Tank Tops";
  attributes := [];
  material := lit "Cotton"; pattern := lit "Solid";
|}.

(** A record with no attributes at all. *)
Definition plain_top : ItemMetadata := {|
  title := title tank_top; brand := brand tank_top;
  description := description tank_top;
  category := lit "Women"; subcategory := lit "Tops";
  product_type := lit "Tank Tops";
  attributes := [];
  material := lit "Cotton"; pattern := lit "Solid";
|}.

End Scenario.

(** ** The batch: one retried, semaphore-guarded task per dataset row

    [generate_dataset_label] is an [async] function decorated with
    [@retry(stop=stop_after_attempt(3), wait=wait_fixed(1))]; the cell below
    it creates [Semaphore(15)] and awaits [asyncio.gather] over one call per
    row, where [asyncio] is [tqdm.asyncio.tqdm_asyncio].  The event loop
    interleaves the tasks at their [await]s; the model makes every such
    point an event, and a run is a sequence of events. *)

Module Orchestrator.
Import Py Taxonomy Validator.

(** The handle of a PIL image. *)
Definition Image : Type := nat.

(** A row of the source dataset, read through [dataset_item["image"]]. *)
Record DatasetItem : Type := { image : Image }.

(** [{"image": dataset_item["image"], "metadata": item}]. *)
Record Labelled : Type := {
  labelled_image : Image;
  metadata : ItemMetadata;
}.

(** What ends one call to [client.chat.completions.create] under
    [wait_for(..., 30)]: the candidates of the answer the call ends on, a
    failure of the transport, or no answer within the 30 seconds.  Inside
    one call instructor may ask the API again after a rejected answer; an
    attempt of the task is one such call, however many requests it sent,
    and a [Response] is how the call ended. *)
Inductive Response : Type :=
| Answer (candidates : list ItemMetadata)
| ConnectionFailed
| NoAnswerInTime.

(** The exceptions an attempt can end with.  A [ValidationError] lists,
    per rejected element of the answer, its position and message. *)
Inductive AttemptError : Type :=
| ValidationError (errors : list (nat * message))
| TransportError
| TimeoutError.

(** Validation of [response_model=List[ItemMetadata]] with
    [context={"taxonomy_data": taxonomy_data}]: every element is validated,
    and the errors of all rejected elements are reported together. *)
Definition element_errors (taxonomy_data : TaxonomyData)
    (candidates : list ItemMetadata) : list (nat * message) :=
  omap (fun '(i, candidate) =>
          match model_validate candidate (with_taxonomy taxonomy_data) with
          | Return _ => None
          | Raise msg => Some (i, msg)
          end)
       (imap pair candidates).

Definition create (taxonomy_data : TaxonomyData) (response : Response)
    : Result AttemptError (list ItemMetadata) :=
  match response with
  | Answer candidates =>
      match element_errors taxonomy_data candidates with
      | [] => Return candidates
      | errors => Raise (ValidationError errors)
      end
  | ConnectionFailed => Raise TransportError
  | NoAnswerInTime => Raise TimeoutError
  end.

(** The body of [generate_dataset_label] from the answer of its call on:
    [items = await wait_for(...)] and the list it returns. *)
Definition label (dataset_item : DatasetItem) (taxonomy_data : TaxonomyData)
    (response : Response) : Result AttemptError (list Labelled) :=
  match create taxonomy_data response with
  | Return items =>
      Return ((fun item => {| labelled_image := image dataset_item;
                              metadata := item |}) <$> items)
  | Raise e => Raise e
  end.

(** tenacity's [RetryError]: it wraps the last attempt, and says nothing
    of the arguments the function was called with. *)
Record RetryError : Type := {
  attempt_number : nat;
  last_exception : AttemptError;
}.

(** [stop_after_attempt(3)]. *)
Definition stop_after_attempt : nat := 3.

(** Where one task stands. *)
Inductive Task : Type :=
| Acquiring (attempt : nat)  (* at [async with sem], before it is entered *)
| InFlight (attempt : nat)   (* inside [async with sem], the call awaited *)
| Sleeping (attempt : nat)   (* in [wait_fixed(1)] after a failed attempt *)
| Returned (rows : list Labelled)
| Raised (error : RetryError).

Record State : Type := {
  sem_value : nat;          (* [Semaphore._value] *)
  tasks : list Task;        (* one per row, in the order of [ds] *)
  completed : list nat;     (* the tasks done, in the order they finished *)
}.

(** The points at which the event loop resumes a task. *)
Inductive Event : Type :=
| Acquire (i : nat)                   (* [sem.acquire()] returns *)
| Respond (i : nat) (r : Response)    (* the awaited call ends *)
| Wake (i : nat).                     (* the sleep between attempts ends *)

(** [Semaphore(15)], and every task at its first attempt. *)
Definition start (limit : nat) (ds : list DatasetItem) : State :=
  {| sem_value := limit;
     tasks := (fun _ => Acquiring 1) <$> ds;
     completed := [] |}.

(** What a task does when its attempt ends, after [async with sem] has
    released the semaphore: return the rows, or let tenacity decide
    between another attempt and [RetryError]. *)
Definition after_attempt (attempt : nat)
    (outcome : Result AttemptError (list Labelled)) : Task :=
  match outcome with
  | Return rows => Returned rows
  | Raise e =>
      if decide (stop_after_attempt ≤ attempt)%nat then
        Raised {| attempt_number := attempt; last_exception := e |}
      else Sleeping attempt
  end.

Definition finished (t : Task) : bool :=
  match t with
  | Returned _ | Raised _ => true
  | _ => false
  end.

(** One event.  [None]: the event cannot happen in this state. *)
Definition step (taxonomy_data : TaxonomyData) (ds : list DatasetItem)
    (s : State) (ev : Event) : option State :=
  match ev with
  | Acquire i =>
      match tasks s !! i, sem_value s with
      | Some (Acquiring n), S value =>
          Some {| sem_value := value;
                  tasks := <[i := InFlight n]> (tasks s);
                  completed := completed s |}
      | _, _ => None
      end
  | Respond i response =>
      match tasks s !! i, ds !! i with
      | Some (InFlight n), Some dataset_item =>
          let t := after_attempt n (label dataset_item taxonomy_data response) in
          Some {| sem_value := S (sem_value s);
                  tasks := <[i := t]> (tasks s);
                  completed := if finished t then completed s ++ [i]
                               else completed s |}
      | _, _ => None
      end
  | Wake i =>
      match tasks s !! i with
      | Some (Sleeping n) =>
          Some {| sem_value := sem_value s;
                  tasks := <[i := Acquiring (S n)]> (tasks s);
                  completed := completed s |}
      | _ => None
      end
  end.

(** A run: the events of a schedule, one after the other. *)
Fixpoint run (taxonomy_data : TaxonomyData) (ds : list DatasetItem)
    (s : State) (evs : list Event) : option State :=
  match evs with
  | [] => Some s
  | ev :: evs =>
      s' ← step taxonomy_data ds s ev; run taxonomy_data ds s' evs
  end.

(** The calls outstanding in a state. *)
Definition outstanding (t : Task) : bool :=
  match t with
  | InFlight _ => true
  | _ => false
  end.

Definition in_flight (s : State) : nat :=
  length (filter (fun t => outstanding t) (tasks s)).

(** [tqdm_asyncio.gather]:
<<
    async def wrap_awaitable(i, f):
        return i, await f
    ifs = [wrap_awaitable(i, f) for i, f in enumerate(fs)]
    res = [await f for f in cls.as_completed(ifs, ...)]
    return [i for _, i in sorted(res)]
>>
    [awaited] is the comprehension over [as_completed]: the results in the
    order of completion, up to the first task that raised. *)
Fixpoint awaited (ts : list Task) (order : list nat)
    : option (Result RetryError (list (nat * list Labelled))) :=
  match order with
  | [] => Some (Return [])
  | i :: order =>
      match ts !! i with
      | Some (Returned rows) =>
          match awaited ts order with
          | Some (Return res) => Some (Return ((i, rows) :: res))
          | rest => rest
          end
      | Some (Raised error) => Some (Raise error)
      | _ => None
      end
  end.

(** [sorted(res)] compares the pairs by their index: the indices of
    [enumerate] differ, so the comparison never reaches the rows. *)
Definition by_index (a b : nat * list Labelled) : Prop := (a.1 ≤ b.1)%nat.

#[global] Instance by_index_dec a b : Decision (by_index a b).
Proof. unfold by_index. apply _. Defined.

Definition sorted (res : list (nat * list Labelled))
    : list (nat * list Labelled) :=
  merge_sort by_index res.

(** What [await asyncio.gather(...)] has produced in a state: [None] while
    it still waits, the exception it re-raised, or the list it returned. *)
Definition gather (s : State)
    : option (Result RetryError (list (list Labelled))) :=
  match awaited (tasks s) (completed s) with
  | Some (Raise error) => Some (Raise error)
  | Some (Return res) =>
      if decide (length res = length (tasks s)) then
        Some (Return ((sorted res).*2))
      else None
  | None => None
  end.

End Orchestrator.

(** ** Two rows, run two ways *)

Module BatchScenario.
Import Py Taxonomy Validator Scenario Orchestrator.

Definition rows : list DatasetItem := [{| image := 1%nat |}; {| image := 2%nat |}].

(** Both calls are outstanding together; the second row's answer arrives
    first. *)
Definition second_row_first : list Event :=
  [Acquire 0; Acquire 1;
   Respond 1 (Answer [plain_top]);
   Respond 0 (Answer [tank_top; plain_top])].

(** The second row is labelled at once; every attempt of the first row
    ends without an answer in time. *)
Definition first_row_exhausted : list Event :=
  [Acquire 0; Acquire 1;
   Respond 1 (Answer [plain_top]);
   Respond 0 NoAnswerInTime; Wake 0; Acquire 0;
   Respond 0 NoAnswerInTime; Wake 0; Acquire 0;
   Respond 0 NoAnswerInTime].

Definition labelled_first : list Labelled :=
  [{| labelled_image := 1%nat; metadata := tank_top |};
   {| labelled_image := 1%nat; metadata := plain_top |}].

Definition labelled_second : list Labelled :=
  [{| labelled_image := 2%nat; metadata := plain_top |}].

Definition timed_out : RetryError :=
  {| attempt_number := 3; last_exception := TimeoutError |}.

End BatchScenario.

(** ** [json.dumps] and [json.loads]

    [flatten_item] stores [json.dumps(flattened_item["attributes"])].  The
    encoder and the decoder of Python's [json] module are embedded for the
    values JSON has; a number is kept as its lexeme, since none occurs in
    the attributes. *)

Module Json.
Import Py.

(** The Python values that JSON writes and reads. *)
#[local] Set Warnings "-register-all".
Inductive value : Type :=
| Null                          (* [None] *)
| Bool (b : bool)
| Number (lexeme : str)
| String (s : str)
| Array (items : list value)    (* a [list] *)
| Object (members : dict value). (* a [dict] with [str] keys *)
#[local] Set Warnings "+register-all".

Definition QUOTE : char := 34.        (* the double quote *)
Definition BACKSLASH : char := 92.

(** *** Encoding: [json.encoder] *)

(** One digit of [format(n, "x")]. *)
Definition hex_digit (d : Z) : char :=
  if decide (d < 10) then ord "0" + d else ord "a" + (d - 10).

(** ['\\u{0:04x}'.format(n)]. *)
Definition escape_u (n : Z) : str :=
  [BACKSLASH; ord "u";
   hex_digit ((n / 4096) `mod` 16); hex_digit ((n / 256) `mod` 16);
   hex_digit ((n / 16) `mod` 16); hex_digit (n `mod` 16)].

(** [replace] of [py_encode_basestring_ascii]: the characters that
    [ESCAPE_ASCII] matches (the backslash, the double quote, and all but
    the printable ASCII from the space to the tilde) are looked up in
    [ESCAPE_DCT], written as [\uXXXX], or as a surrogate pair. *)
Definition escape (c : char) : str :=
  if decide (c = BACKSLASH) then [BACKSLASH; BACKSLASH]
  else if decide (c = QUOTE) then [BACKSLASH; QUOTE]
  else if decide (c = 8) then [BACKSLASH; ord "b"]
  else if decide (c = 12) then [BACKSLASH; ord "f"]
  else if decide (c = 10) then [BACKSLASH; ord "n"]
  else if decide (c = 13) then [BACKSLASH; ord "r"]
  else if decide (c = 9) then [BACKSLASH; ord "t"]
  else if decide (32 ≤ c ≤ 126) then [c]
  else if decide (c < 65536) then escape_u c
  else
    let n := c - 65536 in
    let s1 := Z.lor 55296 (Z.land (Z.shiftr n 10) 1023) in
    let s2 := Z.lor 56320 (Z.land n 1023) in
    escape_u s1 ++ escape_u s2.

Definition encode_basestring_ascii (s : str) : str :=
  [QUOTE] ++ (c ← s; escape c) ++ [QUOTE].

(** [separator.join(parts)]. *)
Fixpoint join (separator : str) (parts : list str) : str :=
  match parts with
  | [] => []
  | [part] => part
  | part :: parts => part ++ separator ++ join separator parts
  end.

(** [json.dumps(obj)] with its defaults: [ensure_ascii=True], the
    separators [", "] and [": "], no indentation. *)
Fixpoint dumps (obj : value) : str :=
  match obj with
  | Null => lit "null"
  | Bool true => lit "true"
  | Bool false => lit "false"
  | Number lexeme => lexeme
  | String s => encode_basestring_ascii s
  | Array items => lit "[" ++ join (lit ", ") (dumps <$> items) ++ lit "]"
  | Object members =>
      lit "{"
        ++ join (lit ", ")
             ((fun member : str * value =>
                 encode_basestring_ascii member.1 ++ lit ": "
                   ++ dumps member.2) <$> members)
        ++ lit "}"
  end.

(** *** Decoding: [json.decoder] and [json.scanner] *)

(** [WHITESPACE]: spaces, tabs, line feeds and carriage returns. *)
Definition whitespace (c : char) : bool :=
  bool_decide (c = 32 ∨ c = 9 ∨ c = 10 ∨ c = 13).

Fixpoint skip_whitespace (s : str) : str :=
  match s with
  | c :: s' => if whitespace c then skip_whitespace s' else s
  | [] => []
  end.

(** The value of a hexadecimal digit. *)
Definition hex_value (c : char) : option Z :=
  if decide (ord "0" ≤ c ≤ ord "9") then Some (c - ord "0")
  else if decide (ord "a" ≤ c ≤ ord "f") then Some (c - ord "a" + 10)
  else if decide (ord "A" ≤ c ≤ ord "F") then Some (c - ord "A" + 10)
  else None.

(** [_decode_uXXXX]: the four digits after [\u], in base 16. *)
Definition decode_uXXXX (h1 h2 h3 h4 : char) : option Z :=
  d1 ← hex_value h1; d2 ← hex_value h2;
  d3 ← hex_value h3; d4 ← hex_value h4;
  Some (((d1 * 16 + d2) * 16 + d3) * 16 + d4).

(** [BACKSLASH], the table of the one-letter escapes. *)
Definition unescape (esc : char) : option char :=
  if decide (esc = QUOTE) then Some QUOTE
  else if decide (esc = BACKSLASH) then Some BACKSLASH
  else if decide (esc = ord "/") then Some (ord "/")
  else if decide (esc = ord "b") then Some 8
  else if decide (esc = ord "f") then Some 12
  else if decide (esc = ord "n") then Some 10
  else if decide (esc = ord "r") then Some 13
  else if decide (esc = ord "t") then Some 9
  else None.

(** [uni = 0x10000 + (((uni - 0xd800) << 10) | (uni2 - 0xdc00))]. *)
Definition join_surrogates (uni uni2 : Z) : Z :=
  65536 + Z.lor (Z.shiftl (uni - 55296) 10) (uni2 - 56320).

(** [py_scanstring] in strict mode, from just after the opening quote: the
    decoded string and what follows the closing quote.  [None] stands for
    [JSONDecodeError]. *)
Fixpoint scanstring (s : str) : option (str * str) :=
  match s with
  | [] => None                                   (* unterminated *)
  | c :: s1 =>
      if decide (c = QUOTE) then Some ([], s1)
      else if decide (c = BACKSLASH) then
        match s1 with
        | [] => None                             (* unterminated *)
        | esc :: s2 =>
            if decide (esc = ord "u") then
              match s2 with
              | h1 :: h2 :: h3 :: h4 :: s3 =>
                  uni ← decode_uXXXX h1 h2 h3 h4;
                  let single := prod_map (cons uni) id <$> scanstring s3 in
                  if decide (55296 ≤ uni ≤ 56319) then
                    match s3 with
                    | b :: u :: s4 =>
                        if decide (b = BACKSLASH ∧ u = ord "u") then
                          match s4 with
                          | g1 :: g2 :: g3 :: g4 :: s5 =>
                              uni2 ← decode_uXXXX g1 g2 g3 g4;
                              if decide (56320 ≤ uni2 ≤ 57343) then
                                prod_map (cons (join_surrogates uni uni2)) id
                                  <$> scanstring s5
                              else single
                          | _ => None            (* invalid \uXXXX escape *)
                          end
                        else single
                    | _ => single
                    end
                  else single
              | _ => None                        (* invalid \uXXXX escape *)
              end
            else
              char ← unescape esc;
              prod_map (cons char) id <$> scanstring s2
        end
      else if decide (c < 32) then None          (* control character *)
      else prod_map (cons c) id <$> scanstring s1
  end.

Definition digit (c : char) : bool := bool_decide (ord "0" ≤ c ≤ ord "9").

(** The longest prefix of digits, and the rest. *)
Fixpoint digits (s : str) : str * str :=
  match s with
  | c :: s' =>
      if digit c then prod_map (cons c) id (digits s') else ([], s)
  | [] => ([], [])
  end.

(** [NUMBER_RE]: an optional minus sign and either a zero or a digit from
    1 to 9 followed by digits; then, optionally, a dot and digits; then,
    optionally, an [e] or [E], an optional sign, and digits.  The lexeme
    matched at the start of [s], and the rest. *)
Definition match_integer (s : str) : option (str * str) :=
  let '(sign, s1) :=
    match s with
    | c :: s' => if decide (c = ord "-") then ([c], s') else ([], s)
    | [] => ([], s)
    end in
  match s1 with
  | c :: s2 =>
      if decide (c = ord "0") then Some (sign ++ [c], s2)
      else if digit c then
        let '(ds, s3) := digits s2 in Some (sign ++ c :: ds, s3)
      else None
  | [] => None
  end.

Definition match_fraction (s : str) : str * str :=
  match s with
  | c :: s1 =>
      if decide (c = ord ".") then
        match digits s1 with
        | ([], _) => ([], s)
        | (ds, s2) => (c :: ds, s2)
        end
      else ([], s)
  | [] => ([], s)
  end.

Definition match_exponent (s : str) : str * str :=
  match s with
  | c :: s1 =>
      if decide (c = ord "e" ∨ c = ord "E") then
        let '(sign, s2) :=
          match s1 with
          | c' :: s' =>
              if decide (c' = ord "-" ∨ c' = ord "+") then ([c'], s')
              else ([], s1)
          | [] => ([], s1)
          end in
        match digits s2 with
        | ([], _) => ([], s)
        | (ds, s3) => (c :: sign ++ ds, s3)
        end
      else ([], s)
  | [] => ([], s)
  end.

Definition match_number (s : str) : option (str * str) :=
  '(integer, s1) ← match_integer s;
  let '(frac, s2) := match_fraction s1 in
  let '(exp, s3) := match_exponent s2 in
  Some (integer ++ frac ++ exp, s3).

(** [string[idx:idx + n] == word]. *)
Fixpoint starts_with (word s : str) : option str :=
  match word, s with
  | [], _ => Some s
  | w :: word', c :: s' =>
      if decide (w = c) then starts_with word' s' else None
  | _ :: _, [] => None
  end.

(** The literals and numbers of [_scan_once], tried in its order. *)
Definition scan_atom (s : str) : option (value * str) :=
  match starts_with (lit "null") s with
  | Some rest => Some (Null, rest)
  | None =>
  match starts_with (lit "true") s with
  | Some rest => Some (Bool true, rest)
  | None =>
  match starts_with (lit "false") s with
  | Some rest => Some (Bool false, rest)
  | None =>
  match match_number s with
  | Some (lexeme, rest) => Some (Number lexeme, rest)
  | None =>
  match starts_with (lit "NaN") s with
  | Some rest => Some (Number (lit "NaN"), rest)
  | None =>
  match starts_with (lit "Infinity") s with
  | Some rest => Some (Number (lit "Infinity"), rest)
  | None =>
  match starts_with (lit "-Infinity") s with
  | Some rest => Some (Number (lit "-Infinity"), rest)
  | None => None
  end end end end end end end.

(** [_scan_once], [JSONArray] and [JSONObject].  Each call and each turn
    of a loop takes one unit of [fuel]; [None] stands for
    [JSONDecodeError], or for fuel that ran out. *)
Fixpoint scan_once (fuel : nat) (s : str) : option (value * str) :=
  match fuel with
  | O => None
  | S fuel =>
      match s with
      | [] => None
      | c :: s' =>
          if decide (c = QUOTE) then
            prod_map String id <$> scanstring s'
          else if decide (c = ord "{") then JSONObject fuel s'
          else if decide (c = ord "[") then JSONArray fuel s'
          else scan_atom s
      end
  end

with JSONArray (fuel : nat) (s : str) : option (value * str) :=
  match fuel with
  | O => None
  | S fuel =>
      match skip_whitespace s with
      | [] => None
      | c :: s' =>
          if decide (c = ord "]") then Some (Array [], s')
          else array_values fuel (skip_whitespace s) []
      end
  end

(** The [while True] of [JSONArray], with the values read so far. *)
with array_values (fuel : nat) (s : str) (values : list value)
    : option (value * str) :=
  match fuel with
  | O => None
  | S fuel =>
      '(v, s1) ← scan_once fuel s;
      match skip_whitespace s1 with
      | [] => None
      | c :: s2 =>
          if decide (c = ord "]") then Some (Array (values ++ [v]), s2)
          else if decide (c = ord ",") then
            array_values fuel (skip_whitespace s2) (values ++ [v])
          else None
      end
  end

with JSONObject (fuel : nat) (s : str) : option (value * str) :=
  match fuel with
  | O => None
  | S fuel =>
      match skip_whitespace s with
      | [] => None
      | c :: s' =>
          if decide (c = ord "}") then Some (Object [], s')
          else if decide (c = QUOTE) then object_pairs fuel s' []
          else None
      end
  end

(** The [while True] of [JSONObject], from just after the quote that opens
    a key, with the pairs read so far. *)
with object_pairs (fuel : nat) (s : str) (pairs : list (str * value))
    : option (value * str) :=
  match fuel with
  | O => None
  | S fuel =>
      '(key, s1) ← scanstring s;
      match skip_whitespace s1 with
      | [] => None
      | c :: s2 =>
          if decide (c = ord ":") then
            '(v, s3) ← scan_once fuel (skip_whitespace s2);
            match skip_whitespace s3 with
            | [] => None
            | c' :: s4 =>
                if decide (c' = ord "}") then
                  Some (Object (of_pairs (pairs ++ [(key, v)])), s4)
                else if decide (c' = ord ",") then
                  match skip_whitespace s4 with
                  | [] => None
                  | q :: s5 =>
                      if decide (q = QUOTE) then
                        object_pairs fuel s5 (pairs ++ [(key, v)])
                      else None
                  end
                else None
            end
          else None
      end
  end.

(** [json.loads(s)]: one value, with nothing but whitespace around it.
    Every call and turn reads at least one character, and a value is at
    most three calls deep per character. *)
Definition loads (s : str) : option value :=
  '(obj, rest) ← scan_once (3 * length s + 3) (skip_whitespace s);
  match skip_whitespace rest with
  | [] => Some obj
  | _ => None                                     (* extra data *)
  end.

End Json.

(** ** Floating point: [random.uniform] and [round]

    A Python [float] is an IEEE 754 binary64 number.  Here it is the
    rational it denotes, and every operation returns the exact result
    rounded to the nearest number with a 53-bit significand, ties to the
    even significand: what IEEE 754 asks of [+], [-], [*] and [/], and what
    the conversions behind [round] do.  The range of the exponent is not
    modelled: the prices stay far from overflow and underflow. *)

Module Float.
Local Open Scope Z_scope.

Definition float : Type := Q.

(** The integer nearest to [N / D] for [0 < D], ties to the even one. *)
Definition round_half_even (N D : Z) : Z :=
  let q := N / D in
  let r := N `mod` D in
  if decide (2 * r < D) then q
  else if decide (D < 2 * r) then q + 1
  else if Z.even q then q else q + 1.

(** The bits of a significand. *)
Definition precision : Z := 53.

(** [2 ^ e] for [0 <= e], and [1] below: the numerator of [2 ^ e], whose
    denominator is [pow2 (- e)]. *)
Definition pow2 (e : Z) : Z := 2 ^ Z.max 0 e.

(** [floor (log2 (a / d))] for [0 < a] and [0 < d]: the difference of the
    two logarithms, or one less. *)
Definition ilog2 (a d : Z) : Z :=
  let l := Z.log2 a - Z.log2 d in
  if decide (d * pow2 l ≤ a * pow2 (- l)) then l else l - 1.

(** [m * 2 ^ e]. *)
Definition scaled (m e : Z) : Q := (m * pow2 e) # Z.to_pos (pow2 (- e)).

(** The binary64 number nearest to [x]: with [2 ^ 52 <= |x| / 2 ^ e < 2 ^ 53],
    the significand is [|x| / 2 ^ e] rounded to an integer. *)
Definition nearest (x : Q) : float :=
  let n := Qnum x in
  let d := Z.pos (Qden x) in
  if decide (n = 0) then 0%Q
  else
    let a := Z.abs n in
    let e := ilog2 a d - (precision - 1) in
    let m := round_half_even (a * pow2 (- e)) (d * pow2 e) in
    scaled (Z.sgn n * m) e.

Definition fadd (x y : float) : float := nearest (x + y)%Q.
Definition fsub (x y : float) : float := nearest (x - y)%Q.
Definition fmul (x y : float) : float := nearest (x * y)%Q.

(** [round(x, ndigits)] for [0 <= ndigits]: CPython writes [x] in decimal
    with [ndigits] digits after the point, correctly rounded, ties to the
    even digit, and reads that string back as a [float]. *)
Definition round (x : float) (ndigits : Z) : float :=
  let shifted := (x * inject_Z (10 ^ ndigits))%Q in
  let decimal := round_half_even (Qnum shifted) (Z.pos (Qden shifted)) in
  nearest (decimal # Z.to_pos (10 ^ ndigits)).

(** The number of hundredths that [round(x, 2)] settles on. *)
Definition hundredths (x : float) : Z :=
  round_half_even (Qnum (x * inject_Z (10 ^ 2))%Q)
    (Z.pos (Qden (x * inject_Z (10 ^ 2))%Q)).

(** *** The generator behind [random] *)

(** The Mersenne Twister, as the stream of the 32-bit words it will
    produce and the position reached in it. *)
Record Random : Type := {
  words : nat → Z;
  position : nat;
}.

Definition genrand_uint32 (rng : Random) : Z * Random :=
  (words rng (position rng) `mod` 2 ^ 32,
   {| words := words rng; position := S (position rng) |}).

(** [random()]: 53 random bits over [2 ^ 53],
<<
    uint32_t a = genrand_uint32(self) >> 5, b = genrand_uint32(self) >> 6;
    return PyFloat_FromDouble((a * 67108864.0 + b) * (1.0 / 9007199254740992.0));
>>
    where every operation is exact. *)
Definition random (rng : Random) : float * Random :=
  let '(w1, rng) := genrand_uint32 rng in
  let '(w2, rng) := genrand_uint32 rng in
  let a := Z.shiftr w1 5 in
  let b := Z.shiftr w2 6 in
  ((a * 67108864 + b) # Z.to_pos (2 ^ 53), rng).

(** [uniform(a, b)]: [a + (b - a) * self.random()]. *)
Definition uniform (a b : float) (rng : Random) : float * Random :=
  let '(u, rng) := random rng in
  (fadd a (fmul (fsub b a) u), rng).

End Float.

(** ** Flattening and assembly

<<
    flattened_results = [item for sublist in results for item in sublist]

    def flatten_item(item: dict, id: int):
        flattened_item = {"image": item["image"], **item["metadata"].model_dump()}
        return {
            **flattened_item,
            "id": id,
            "price": round(random.uniform(10.0, 400.0), 2),
            "attributes": json.dumps(flattened_item["attributes"]),
        }

    hf_dataset_items = [
        flatten_item(item, id + 1) for id, item in enumerate(flattened_results)
    ]
>> *)

Module Assembly.
Import Py Orchestrator.

(** The dictionary [flatten_item] returns, by key. *)
Record CatalogEntry : Type := {
  image : Image;
  title : str;
  brand : str;
  description : str;
  category : str;
  subcategory : str;
  product_type : str;
  attributes : str;
  material : str;
  pattern : str;
  id : Z;
  price : Float.float;
}.

(** [ItemAttribute.model_dump()]. *)
Definition dump_attribute (attr : Validator.ItemAttribute) : Json.value :=
  Json.Object [(lit "name", Json.String (Validator.name attr));
               (lit "value", Json.String (Validator.value attr))].

(** [item["metadata"].model_dump()["attributes"]]: a list of dictionaries. *)
Definition dump_attributes (attrs : list Validator.ItemAttribute)
    : Json.value :=
  Json.Array (dump_attribute <$> attrs).

(** An attribute whose name and value are well-formed text. *)
Definition well_formed_attribute (attr : Validator.ItemAttribute) : Prop :=
  well_formed (Validator.name attr) ∧ well_formed (Validator.value attr).

#[global] Instance well_formed_attribute_dec attr :
  Decision (well_formed_attribute attr).
Proof. unfold well_formed_attribute. apply _. Defined.

Definition flattened_results (results : list (list Labelled)) : list Labelled :=
  sublist ← results; item ← sublist; [item].

(** [flatten_item], with the generator that [random.uniform] advances. *)
Definition flatten_item (item : Labelled) (id : Z) (rng : Float.Random)
    : CatalogEntry * Float.Random :=
  let '(drawn, rng) := Float.uniform 10%Q 400%Q rng in
  let m := metadata item in
  ({| image := labelled_image item;
      title := Validator.title m;
      brand := Validator.brand m;
      description := Validator.description m;
      category := Validator.category m;
      subcategory := Validator.subcategory m;
      product_type := Validator.product_type m;
      attributes := Json.dumps (dump_attributes (Validator.attributes m));
      material := Validator.material m;
      pattern := Validator.pattern m;
      id := id;
      price := Float.round drawn 2 |},
   rng).

(** The comprehension over [enumerate(items)], from the index [id] on. *)
Fixpoint flatten_from (id : Z) (items : list Labelled) (rng : Float.Random)
    : list CatalogEntry * Float.Random :=
  match items with
  | [] => ([], rng)
  | item :: items =>
      let '(entry, rng) := flatten_item item (id + 1) rng in
      let '(entries, rng) := flatten_from (id + 1) items rng in
      (entry :: entries, rng)
  end.

(** What a reader of the catalogue gets back from the stored string:
    [[(d["name"], d["value"]) for d in json.loads(entry["attributes"])]]. *)
Definition attribute_pair (loaded : Json.value) : option (str * str) :=
  match loaded with
  | Json.Object d =>
      match get d (lit "name"), get d (lit "value") with
      | Some (Json.String n), Some (Json.String v) => Some (n, v)
      | _, _ => None
      end
  | _ => None
  end.

Definition attribute_pairs (loaded : Json.value) : option (list (str * str)) :=
  match loaded with
  | Json.Array items => mapM attribute_pair items
  | _ => None
  end.

(** The (name, value) pairs of the attributes, in their order. *)
Definition pairs_of (attrs : list Validator.ItemAttribute) : list (str * str) :=
  (fun attr => (Validator.name attr, Validator.value attr)) <$> attrs.

Definition hf_dataset_items (results : list (list Labelled))
    (rng : Float.Random) : list CatalogEntry * Float.Random :=
  flatten_from 0 (flattened_results results) rng.

End Assembly.

(** ** A catalogue of three entries *)

Module AssemblyScenario.
Import Py Validator Scenario Orchestrator BatchScenario.

Definition first_item : Labelled :=
  {| labelled_image := 1%nat; metadata := tank_top |}.

(** Row 1 has one extracted item, row 2 has two. *)
Definition two_rows : list (list Labelled) :=
  [[first_item];
   [{| labelled_image := 2%nat; metadata := plain_top |};
    {| labelled_image := 2%nat; metadata := long_sleeved |}]].

(** An item with an attribute value that holds the two halves of a
    surrogate pair as two code points. *)
Definition paired_surrogates : Labelled :=
  {| labelled_image := 3%nat;
     metadata := {|
       title := title tank_top; brand := brand tank_top;
       description := description tank_top;
       category := lit "Women"; subcategory := lit "Tops";
       product_type := lit "Tank Tops";
       attributes := [{| name := lit "Print"; value := [55357; 56832] |}];
       material := lit "Cotton"; pattern := lit "Solid";
     |} |}.

(** A generator, given by the words it will produce. *)
Definition generator : Float.Random :=
  {| Float.words := fun i => Z.of_nat i * 2654435761 + 12345;
     Float.position := 0 |}.

End AssemblyScenario.

(** ** The text of an extraction result

    The items of an extraction result are parsed from the JSON of a
    completion ([response_model=List[ItemMetadata]]): every [str] they hold
    was read by a JSON decoder from text that was itself decoded from
    UTF-8. *)

Module Extraction.
Import Py.

(** The characters of text decoded from UTF-8: the code points that are
    not surrogates. *)
Definition scalar_value (c : char) : Prop :=
  code_point c ∧ ¬ (55296 ≤ c ≤ 57343).

(** A [str] as the JSON decoder reads it from the text of a completion:
    what [py_scanstring] returns for a string literal of such text. *)
Definition decoded (s : str) : Prop :=
  ∃ text rest, Forall scalar_value text ∧ Json.scanstring text = Some (s, rest).

(** An attribute of an extraction result: its name and its value are text
    that the decoder delivered. *)
Definition extracted_attribute (attr : Validator.ItemAttribute) : Prop :=
  decoded (Validator.name attr) ∧ decoded (Validator.value attr).

End Extraction.

(** ** Records and taxonomies that differ in part

    The validators read six fields of a record and three parts of the
    taxonomy.  The definitions below vary the rest, so that the theorems
    can say what a verdict depends on. *)

Module ValidatorSurface.
Import Py Taxonomy Validator.

(** The record [self] with other free text. *)
Definition with_text (self : ItemMetadata) (title brand description : str)
    : ItemMetadata :=
  {| title := title; brand := brand; description := description;
     category := category self; subcategory := subcategory self;
     product_type := product_type self; attributes := attributes self;
     material := material self; pattern := pattern self |}.

(** The record [self] with other attributes. *)
Definition with_attributes (self : ItemMetadata)
    (attrs : list ItemAttribute) : ItemMetadata :=
  {| title := title self; brand := brand self;
     description := description self;
     category := category self; subcategory := subcategory self;
     product_type := product_type self; attributes := attrs;
     material := material self; pattern := pattern self |}.

(** A taxonomy that differs from [td] in the sizes, colours and occasions
    of its common attributes only. *)
Definition with_stock (td : TaxonomyData) (sizes colors occasions : list str)
    : TaxonomyData :=
  {| taxonomy_map := taxonomy_map td;
     common_attributes :=
       {| Size := sizes; Color := colors;
          Material := Material (common_attributes td);
          Pattern := Pattern (common_attributes td);
          Occasion := occasions |} |}.

(** Whether validation returns the record. *)
Definition accepted (td : TaxonomyData) (self : ItemMetadata) : Prop :=
  model_validate self (with_taxonomy td) = Return self.

(** [sd'] offers at least what [sd] offers: every product type, every
    attribute name and, under it, every value. *)
Definition extends_subcategory (sd sd' : SubcategoryData) : Prop :=
  Taxonomy.product_type sd ⊆ Taxonomy.product_type sd'
  ∧ ∀ attribute values,
      get (Taxonomy.attributes sd) attribute = Some values →
      ∃ values', get (Taxonomy.attributes sd') attribute = Some values'
                 ∧ values ⊆ values'.

(** [td'] offers at least what [td] offers. *)
Definition extends (td td' : TaxonomyData) : Prop :=
  Material (common_attributes td) ⊆ Material (common_attributes td')
  ∧ Pattern (common_attributes td) ⊆ Pattern (common_attributes td')
  ∧ ∀ category subcategories,
      get (taxonomy_map td) category = Some subcategories →
      ∃ subcategories',
        get (taxonomy_map td') category = Some subcategories'
        ∧ ∀ subcategory sd,
            get subcategories subcategory = Some sd →
            ∃ sd', get subcategories' subcategory = Some sd'
                   ∧ extends_subcategory sd sd'.

End ValidatorSurface.

(** ** The taxonomy of the scenario, a season later *)

Module SurfaceScenario.
Import Py Taxonomy Validator Scenario.

(** The taxonomy of the scenario a season later: one more product type,
    one more sleeve length, one more category, more materials and
    patterns. *)
Definition next_season : TaxonomyData := {|
  taxonomy_map :=
    [(lit "Women",
      [(lit "Tops",
        {| Taxonomy.product_type := [lit "Tank Tops"; lit "Blouses"];
           Taxonomy.attributes :=
             [(lit "Sleeve Length",
               [lit "Sleeveless"; lit "Short"; lit "Long"])] |})]);
     (lit "Men", [])];
  common_attributes := {|
    Size := [lit "S"; lit "M"; lit "L"];
    Color := [lit "Black"];
    Material := [lit "Linen"; lit "Cotton"];
    Pattern := [lit "Solid"; lit "Striped"];
    Occasion := [lit "Casual"];
  |};
|}.

End SurfaceScenario.

(** ** Schedules, measured

    What a schedule holds for each row: how its attempts ended, how many
    attempts ended in all, and how much a task may still do.  An attempt is
    one awaited call to [client.chat.completions.create]; the requests that
    instructor sends inside one call are not events of the schedule. *)

Module Schedule.
Import Py Orchestrator.
Local Open Scope nat_scope.

(** How the attempts of row [i] ended in a schedule, first to last. *)
Definition attempts_of (i : nat) (evs : list Event) : list Response :=
  omap (fun ev =>
          match ev with
          | Respond j response => if decide (j = i) then Some response else None
          | _ => None
          end) evs.

(** Whether an event is the end of an attempt. *)
Definition ends_attempt (ev : Event) : bool :=
  match ev with
  | Respond _ _ => true
  | _ => false
  end.

(** The attempts that ended during a schedule. *)
Definition attempts (evs : list Event) : nat :=
  length (filter (fun ev => ends_attempt ev) evs).

(** Whether an attempt ended with an exception. *)
Definition failed {A} (outcome : Result AttemptError A) : bool :=
  match outcome with
  | Raise _ => true
  | Return _ => false
  end.

(** The attempts a task may still make, and the events it may still
    take. *)
Definition attempts_left (t : Task) : nat :=
  match t with
  | Acquiring n | InFlight n => 4 - n
  | Sleeping n => 3 - n
  | Returned _ | Raised _ => 0
  end.

Definition events_left (t : Task) : nat :=
  match t with
  | Acquiring n => 11 - 3 * n
  | InFlight n => 10 - 3 * n
  | Sleeping n => 9 - 3 * n
  | Returned _ | Raised _ => 0
  end.

(** What the ends of the attempts of a row say about its task. *)
Definition follows (outcomes : list (Result AttemptError (list Labelled)))
    (t : Task) : Prop :=
  match t with
  | Acquiring n | InFlight n =>
      Forall (fun o => failed o = true) outcomes ∧ S (length outcomes) = n
  | Sleeping n =>
      Forall (fun o => failed o = true) outcomes ∧ length outcomes = n
  | Returned rows =>
      ∃ fails, outcomes = fails ++ [Return rows]
               ∧ Forall (fun o => failed o = true) fails ∧ length fails < 3
  | Raised error =>
      Forall (fun o => failed o = true) outcomes ∧ length outcomes = 3
      ∧ last outcomes = Some (Raise (last_exception error))
  end.

End Schedule.

(** ** What the catalogue stores *)

Module Stored.
Import Py Orchestrator Assembly.

(** The characters [json.dumps] writes with [ensure_ascii=True]: the
    printable ASCII, from the space to the tilde. *)
Definition printable (c : char) : Prop := 32 ≤ c ≤ 126.

#[global] Instance printable_dec c : Decision (printable c).
Proof. unfold printable. apply _. Defined.

(** The generator after [n] more words. *)
Definition advance (rng : Float.Random) (n : nat) : Float.Random :=
  {| Float.words := Float.words rng;
     Float.position := (Float.position rng + n)%nat |}.

End Stored.

(** ** Surrogate pairs in attribute text *)

Module Pairs.
Import Py.

(** The text in which every high surrogate directly followed by a low
    surrogate is replaced by the code point the two encode, from left to
    right. *)
Fixpoint join_pairs (s : str) : str :=
  match s with
  | [] => []
  | c :: s' =>
      match s' with
      | c' :: s'' =>
          if decide (high_surrogate c ∧ low_surrogate c') then
            Json.join_surrogates c c' :: join_pairs s''
          else c :: join_pairs s'
      | [] => [c]
      end
  end.

Definition joined (attr : Validator.ItemAttribute) : Validator.ItemAttribute :=
  {| Validator.name := join_pairs (Validator.name attr);
     Validator.value := join_pairs (Validator.value attr) |}.

End Pairs.

(** ** [flatten_item] on dictionaries

    [CatalogEntry] reads the dictionary that [flatten_item] returns by key.
    Here the dictionaries themselves are built, key by key and in order, as
    the two dictionary displays of the function build them. *)

Module Columns.
Import Py Orchestrator.

(** The exceptions the body of [flatten_item] could raise: a key that a
    dictionary lacks, a value [json.dumps] cannot write. *)
Inductive Error : Type :=
| KeyError (key : str)
| TypeError.

(** The values of the dictionary [flatten_item] returns: the image, what
    [model_dump] and [json.dumps] give, an [int] and a [float]. *)
Inductive column : Type :=
| Picture (image : Image)
| Plain (v : Json.value)
| Integer (n : Z)
| Real (x : Float.float).

(** [item["metadata"].model_dump()]: the fields in the order the class
    declares them, [attributes] as a list of dictionaries. *)
Definition model_dump (m : Validator.ItemMetadata) : dict Json.value :=
  [(lit "title", Json.String (Validator.title m));
   (lit "brand", Json.String (Validator.brand m));
   (lit "description", Json.String (Validator.description m));
   (lit "category", Json.String (Validator.category m));
   (lit "subcategory", Json.String (Validator.subcategory m));
   (lit "product_type", Json.String (Validator.product_type m));
   (lit "attributes", Assembly.dump_attributes (Validator.attributes m));
   (lit "material", Json.String (Validator.material m));
   (lit "pattern", Json.String (Validator.pattern m))].

(** A dictionary display [{**d, k1: v1, ...}]: the pairs of [d], then the
    pairs written out, each set in turn. *)
Definition display {V} (d : dict V) (pairs : list (str * V)) : dict V :=
  foldl (fun d kv => set d kv.1 kv.2) d pairs.

(** [flatten_item] on dictionaries.  [flattened_item] holds the image and
    the dumped fields; the returned dictionary is evaluated from left to
    right, so the price is drawn before the attributes are looked up. *)
Definition flatten_item (item : Labelled) (id : Z) (rng : Float.Random)
    : Result Error (dict column) * Float.Random :=
  let flattened_item : dict (Image + Json.value) :=
    display [(lit "image", inl (labelled_image item))]
      (prod_map Datatypes.id inr <$> model_dump (metadata item)) in
  let '(drawn, rng) := Float.uniform 10%Q 400%Q rng in
  (match get flattened_item (lit "attributes") with
   | None => Raise (KeyError (lit "attributes"))
   | Some (inl _) => Raise TypeError
   | Some (inr attributes) =>
       Return
         (display
            (prod_map Datatypes.id
               (fun v => match v with
                         | inl image => Picture image
                         | inr v => Plain v
                         end) <$> flattened_item)
            [(lit "id", Integer id);
             (lit "price", Real (Float.round drawn 2));
             (lit "attributes", Plain (Json.String (Json.dumps attributes)))])
   end, rng).

(** A catalogue entry as the dictionary it stands for. *)
Definition of_entry (entry : Assembly.CatalogEntry) : dict column :=
  [(lit "image", Picture (Assembly.image entry));
   (lit "title", Plain (Json.String (Assembly.title entry)));
   (lit "brand", Plain (Json.String (Assembly.brand entry)));
   (lit "description", Plain (Json.String (Assembly.description entry)));
   (lit "category", Plain (Json.String (Assembly.category entry)));
   (lit "subcategory", Plain (Json.String (Assembly.subcategory entry)));
   (lit "product_type", Plain (Json.String (Assembly.product_type entry)));
   (lit "attributes", Plain (Json.String (Assembly.attributes entry)));
   (lit "material", Plain (Json.String (Assembly.material entry)));
   (lit "pattern", Plain (Json.String (Assembly.pattern entry)));
   (lit "id", Integer (Assembly.id entry));
   (lit "price", Real (Assembly.price entry))].

End Columns.

(** ** What the cells display *)

Module Display.
Import Py Orchestrator Assembly.

(** [IndexError: list index out of range]. *)
Inductive IndexError : Type := list_index_out_of_range.

(** [l[i]] for an index from 0 on. *)
Definition subscript {A} (l : list A) (i : nat) : Result IndexError A :=
  match l !! i with
  | Some x => Return x
  | None => Raise list_index_out_of_range
  end.

(** [flattened_results[0]["metadata"].model_dump()], the value the cell
    that flattens the results displays. *)
Definition first_metadata (results : list (list Labelled))
    : Result IndexError (dict Json.value) :=
  match subscript (flattened_results results) 0 with
  | Return item => Return (Columns.model_dump (metadata item))
  | Raise e => Raise e
  end.

(** [hf_dataset_items[0]], the value the cell that assembles the
    catalogue displays. *)
Definition first_entry (results : list (list Labelled)) (rng : Float.Random)
    : Result IndexError CatalogEntry :=
  subscript (hf_dataset_items results rng).1 0.

End Display.

(** * Theorems *)

(** ** Dictionaries *)

Section dict_facts.
Import Py.
Context {V : Type}.
Implicit Types (d : dict V) (k : str) (v : V).

Lemma get_Some_keys d k v : get d k = Some v → k ∈ keys d.
Proof.
  induction d as [|[k' v'] d IH]; simpl; [done|].
  case_decide; subst; intros ?.
  - by left.
  - right. by apply IH.
Qed.

Lemma get_None_keys d k : get d k = None ↔ k ∉ keys d.
Proof.
  induction d as [|[k' v'] d IH]; simpl.
  - split; [intros _; apply not_elem_of_nil|done].
  - case_decide; subst.
    + split; [done|]. intros []. by left.
    + rewrite IH, not_elem_of_cons.
      split; [by intros ?; split|by intros [_ ?]].
Qed.

Lemma keys_get_is_Some d k : k ∈ keys d ↔ is_Some (get d k).
Proof.
  destruct (get d k) eqn:E.
  - split; [eauto|]. intros _. by eapply get_Some_keys.
  - apply get_None_keys in E. split; [done|]. by intros [? [=]].
Qed.

End dict_facts.

(** ** The validators *)

Module ValidatorFacts.
Import Py Taxonomy Validator Checks Scenario.

Lemma require_with_taxonomy td :
  require_taxonomy (with_taxonomy td) = Return td.
Proof. reflexivity. Qed.

Lemma require_taxonomy_Return info td :
  require_taxonomy info = Return td →
  ∃ ctx, context info = Some ctx ∧ taxonomy_data ctx = Some td.
Proof.
  unfold require_taxonomy. destruct (context info) as [ctx|]; [|done].
  destruct (taxonomy_data ctx) eqn:E; [|done]. intros [= ->]. eauto.
Qed.

(** The attribute loop accepts exactly the lists whose every attribute has
    a valid name and a valid value. *)
Lemma validate_attributes_Return self sd attrs :
  validate_attributes self sd attrs = Return tt ↔
  Forall (fun attr =>
            ∃ valid_values,
              get (Taxonomy.attributes sd) (name attr) = Some valid_values
              ∧ value attr ∈ valid_values) attrs.
Proof.
  induction attrs as [|attr attrs IH]; simpl.
  - split; [constructor|done].
  - rewrite Forall_cons, <- IH.
    destruct (get (Taxonomy.attributes sd) (name attr)) as [vs|] eqn:E.
    + case_decide; split.
      * intros ?. split; [eauto|done].
      * by intros [_ ?].
      * done.
      * intros [(vs' & [= <-] & ?) _]. done.
    + split; [done|]. by intros [(? & [=] & _) _].
Qed.

(** The attribute loop is fail-fast over the attribute checks. *)
Lemma validate_attributes_fail_fast td self sd attrs :
  subcategory_data_of td self = Some sd →
  (_ ← validate_attributes self sd attrs; Return self) =
  match list_find (fun c => ¬ holds td self c)
          (attr ← attrs; [AttributeNameCheck attr; AttributeValueCheck attr])
  with
  | Some (_, c) => ValueError (error_of td self c)
  | None => Return self
  end.
Proof.
  intros Hsd. induction attrs as [|attr attrs IH]; [done|].
  cbn [validate_attributes mbind list_bind app list_find].
  destruct (get (Taxonomy.attributes sd) (name attr)) as [vs|] eqn:E.
  - rewrite (decide_False (P := ¬ holds td self (AttributeNameCheck attr)));
      last first.
    { intros Hn. apply Hn. simpl. rewrite Hsd. by eapply get_Some_keys. }
    destruct (decide (value attr ∈ vs)) as [Hv|Hv].
    + rewrite (decide_False
                 (P := ¬ holds td self (AttributeValueCheck attr)));
        last first.
      { intros Hn. apply Hn. simpl. by rewrite Hsd, E. }
      rewrite IH. destruct (list_find _ _) as [[i c]|]; done.
    + rewrite (decide_True
                 (P := ¬ holds td self (AttributeValueCheck attr)));
        last first.
      { simpl. by rewrite Hsd, E. }
      simpl. by rewrite Hsd; simpl; rewrite E.
  - rewrite (decide_True (P := ¬ holds td self (AttributeNameCheck attr)));
      last first.
    { simpl. rewrite Hsd. by apply get_None_keys. }
    simpl. by rewrite Hsd.
Qed.

(** Validation is fail-fast along the declared order. *)
Lemma model_validate_fail_fast td self :
  model_validate self (with_taxonomy td)
  = fail_fast (declared_order self) td self.
Proof.
  unfold model_validate, validate_material_and_pattern,
    validate_category_and_attributes, fail_fast, declared_order.
  rewrite require_with_taxonomy.
  cbn [mbind Result_bind app list_find].
  destruct (decide (pattern self ∈ _)) as [Hp|Hp]; last first.
  { by rewrite decide_True by (by simpl). }
  rewrite (decide_False (P := ¬ holds td self PatternCheck))
    by (simpl; tauto).
  destruct (decide (material self ∈ _)) as [Hm|Hm]; last first.
  { by rewrite decide_True by (by simpl). }
  rewrite (decide_False (P := ¬ holds td self MaterialCheck))
    by (simpl; tauto).
  cbn [mbind Result_bind].
  destruct (get (taxonomy_map td) (category self)) as [subs|] eqn:Ec;
    last first.
  { rewrite decide_True; [done|]. simpl. by apply get_None_keys. }
  rewrite (decide_False (P := ¬ holds td self CategoryCheck)); last first.
  { simpl. intros Hn. apply Hn. by eapply get_Some_keys. }
  destruct (get subs (subcategory self)) as [sd|] eqn:Es; last first.
  { rewrite decide_True; [done|]. simpl. rewrite Ec. by apply get_None_keys. }
  rewrite (decide_False (P := ¬ holds td self SubcategoryCheck)); last first.
  { simpl. rewrite Ec. intros Hn. apply Hn. by eapply get_Some_keys. }
  assert (subcategory_data_of td self = Some sd) as Hsd.
  { unfold subcategory_data_of. by rewrite Ec; simpl. }
  destruct (decide (product_type self ∈ _)) as [Ht|Ht]; last first.
  { rewrite decide_True; [|by simpl; rewrite Hsd].
    simpl. by rewrite Hsd. }
  rewrite (decide_False (P := ¬ holds td self ProductTypeCheck)); last first.
  { simpl. rewrite Hsd. tauto. }
  rewrite (validate_attributes_fail_fast td) by done.
  unfold attribute_checks.
  destruct (list_find _ _) as [[i c]|]; done.
Qed.

(** Acceptance under fail-fast validation: every check of the order holds. *)
Lemma fail_fast_Return order td self r :
  fail_fast order td self = Return r →
  r = self ∧ Forall (holds td self) order.
Proof.
  unfold fail_fast.
  destruct (list_find _ _) as [[i c]|] eqn:E; [done|].
  intros [= <-]. split; [done|].
  apply list_find_None in E.
  eapply Forall_impl; [exact E|]. intros c Hc. simpl in Hc.
  by destruct (decide (holds td self c)).
Qed.

Lemma fail_fast_all_hold order td self :
  Forall (holds td self) order → fail_fast order td self = Return self.
Proof.
  intros H. unfold fail_fast.
  destruct (list_find _ _) as [[i c]|] eqn:E; [|done].
  apply list_find_Some in E as (Hi & Hc & _).
  rewrite Forall_forall in H. destruct Hc. apply H.
  by eapply list_elem_of_lookup_2.
Qed.

(** C1. A record that validation accepts lies in the taxonomy it was
    validated against: its category is a key of the taxonomy map, its
    subcategory a key under that category, its product type one of that
    subcategory's product types, every attribute has a valid name and a
    value among that name's valid values, its material is among the
    materials and its pattern among the patterns. *)
Theorem accepted_record_in_taxonomy self info r :
  model_validate self info = Return r →
  ∃ ctx td subcategories subcategory_data,
    context info = Some ctx ∧ taxonomy_data ctx = Some td ∧ r = self
    ∧ category r ∈ keys (taxonomy_map td)
    ∧ get (taxonomy_map td) (category r) = Some subcategories
    ∧ subcategory r ∈ keys subcategories
    ∧ get subcategories (subcategory r) = Some subcategory_data
    ∧ product_type r ∈ Taxonomy.product_type subcategory_data
    ∧ Forall (fun attr =>
                name attr ∈ keys (Taxonomy.attributes subcategory_data)
                ∧ ∃ valid_values,
                    get (Taxonomy.attributes subcategory_data) (name attr)
                    = Some valid_values
                    ∧ value attr ∈ valid_values) (attributes r)
    ∧ material r ∈ Material (common_attributes td)
    ∧ pattern r ∈ Pattern (common_attributes td).
Proof.
  unfold model_validate, validate_material_and_pattern,
    validate_category_and_attributes.
  destruct (require_taxonomy info) as [td|] eqn:Hreq; [|done].
  apply require_taxonomy_Return in Hreq as (ctx & Hctx & Htd).
  cbn [mbind Result_bind].
  destruct (decide (pattern self ∈ _)) as [Hp|]; [|done].
  destruct (decide (material self ∈ _)) as [Hm|]; [|done].
  cbn [mbind Result_bind].
  destruct (get (taxonomy_map td) (category self)) as [subs|] eqn:Ec; [|done].
  destruct (get subs (subcategory self)) as [sd|] eqn:Es; [|done].
  destruct (decide (product_type self ∈ _)) as [Ht|]; [|done].
  destruct (validate_attributes self sd (attributes self)) as [[]|] eqn:Ea;
    [|done].
  cbn [mbind Result_bind]. intros [= <-].
  exists ctx, td, subs, sd. repeat split; try done.
  - by eapply get_Some_keys.
  - by eapply get_Some_keys.
  - apply validate_attributes_Return in Ea.
    eapply Forall_impl; [exact Ea|].
    intros attr (vs & Hvs & Hin). split; [by eapply get_Some_keys|eauto].
Qed.

Lemma accepted_record_in_taxonomy_witness :
  model_validate tank_top (with_taxonomy taxonomy) = Return tank_top
  ∧ ∃ ctx td subcategories subcategory_data,
      context (with_taxonomy taxonomy) = Some ctx
      ∧ taxonomy_data ctx = Some td ∧ tank_top = tank_top
      ∧ category tank_top ∈ keys (taxonomy_map td)
      ∧ get (taxonomy_map td) (category tank_top) = Some subcategories
      ∧ subcategory tank_top ∈ keys subcategories
      ∧ get subcategories (subcategory tank_top) = Some subcategory_data
      ∧ product_type tank_top ∈ Taxonomy.product_type subcategory_data
      ∧ Forall (fun attr =>
                  name attr ∈ keys (Taxonomy.attributes subcategory_data)
                  ∧ ∃ valid_values,
                      get (Taxonomy.attributes subcategory_data) (name attr)
                      = Some valid_values
                      ∧ value attr ∈ valid_values) (attributes tank_top)
      ∧ material tank_top ∈ Material (common_attributes td)
      ∧ pattern tank_top ∈ Pattern (common_attributes td).
Proof.
  split; [reflexivity|].
  apply (accepted_record_in_taxonomy tank_top (with_taxonomy taxonomy)).
  reflexivity.
Defined.

(** C3, as amended.  With a taxonomy in the context, validation is
    fail-fast in the order the validators are declared and written:
    pattern, material, category, subcategory, product type, then each
    attribute's name followed by its value; the first failing check
    decides the error that is raised, and a record with no failing
    check is returned. *)
Theorem validation_follows_declared_order td self :
  model_validate self (with_taxonomy td)
  = fail_fast
      ([PatternCheck; MaterialCheck; CategoryCheck; SubcategoryCheck;
        ProductTypeCheck]
         ++ (attr ← attributes self;
             [AttributeNameCheck attr; AttributeValueCheck attr]))
      td self.
Proof. apply model_validate_fail_fast. Qed.

(** C3, as stated, fails: on a record whose category and pattern are both
    invalid, the order of the specification raises the category error,
    the validators raise the pattern error. *)
Lemma specified_order_refuted :
  fail_fast (specified_order wrong_category_and_pattern) taxonomy
    wrong_category_and_pattern
  = ValueError (category_error wrong_category_and_pattern
                  (taxonomy_map taxonomy))
  ∧ model_validate wrong_category_and_pattern (with_taxonomy taxonomy)
    = ValueError (pattern_error wrong_category_and_pattern taxonomy)
  ∧ model_validate wrong_category_and_pattern (with_taxonomy taxonomy)
    ≠ fail_fast (specified_order wrong_category_and_pattern) taxonomy
        wrong_category_and_pattern.
Proof. split; [reflexivity|]. split; [reflexivity|]. discriminate. Qed.

(** C4.  The error raised for a subcategory that does not exist under its
    category opens with the field and states the rejected subcategory and
    its category, but lists no accepted values; the errors of the six
    checks beside it (pattern, material, category, product type, attribute
    name, attribute value) each list the values they accept. *)
Theorem subcategory_error_lists_no_values :
  model_validate wrong_subcategory (with_taxonomy taxonomy)
  = ValueError [Text "Subcategory "; Fmt (lit "Hats");
                Text " does not exist under category "; Fmt (lit "Women")]
  ∧ (∀ self, lists_any_values (subcategory_error self) = false)
  ∧ (∀ self td,
       lists_values (pattern_error self td) (Pattern (common_attributes td))
       ∧ lists_values (material_error self td)
           (Material (common_attributes td)))
  ∧ (∀ self taxonomy_map,
       lists_values (category_error self taxonomy_map) (keys taxonomy_map))
  ∧ (∀ self subcategory_data,
       lists_values (product_type_error self subcategory_data)
         (Taxonomy.product_type subcategory_data))
  ∧ (∀ self subcategory_data attr,
       lists_values (attribute_name_error self subcategory_data attr)
         (keys (Taxonomy.attributes subcategory_data)))
  ∧ (∀ attr valid_values,
       lists_values (attribute_value_error attr valid_values) valid_values).
Proof.
  split; [reflexivity|]. split; [reflexivity|].
  unfold lists_values.
  split_and!; intros; try split; repeat first [by left | right].
Qed.

(** C8.  A record with an empty attribute list whose category,
    subcategory, product type, material and pattern pass their membership
    checks is accepted. *)
Theorem empty_attributes_accepted td self :
  attributes self = [] →
  holds td self CategoryCheck →
  holds td self SubcategoryCheck →
  holds td self ProductTypeCheck →
  holds td self MaterialCheck →
  holds td self PatternCheck →
  model_validate self (with_taxonomy td) = Return self.
Proof.
  intros Ha Hc Hs Ht Hm Hp.
  rewrite model_validate_fail_fast. apply fail_fast_all_hold.
  unfold declared_order, attribute_checks. rewrite Ha. simpl.
  repeat constructor; done.
Qed.

Lemma empty_attributes_accepted_witness :
  attributes plain_top = []
  ∧ holds taxonomy plain_top CategoryCheck
  ∧ holds taxonomy plain_top SubcategoryCheck
  ∧ holds taxonomy plain_top ProductTypeCheck
  ∧ holds taxonomy plain_top MaterialCheck
  ∧ holds taxonomy plain_top PatternCheck
  ∧ model_validate plain_top (with_taxonomy taxonomy) = Return plain_top.
Proof.
  assert (attributes plain_top = []) as Ha by reflexivity.
  assert (holds taxonomy plain_top CategoryCheck) as Hc
    by (by vm_compute; left).
  assert (holds taxonomy plain_top SubcategoryCheck) as Hs
    by (by vm_compute; left).
  assert (holds taxonomy plain_top ProductTypeCheck) as Ht
    by (by vm_compute; left).
  assert (holds taxonomy plain_top MaterialCheck) as Hm
    by (by vm_compute; left).
  assert (holds taxonomy plain_top PatternCheck) as Hp
    by (by vm_compute; left).
  repeat (split; [assumption|]).
  exact (empty_attributes_accepted taxonomy plain_top Ha Hc Hs Ht Hm Hp).
Defined.

End ValidatorFacts.

(** ** The batch *)

Module OrchestratorFacts.
Import Py Taxonomy Validator Checks Scenario Orchestrator BatchScenario.
Import Schedule.

(** *** Counting the outstanding calls *)

Definition count_outstanding (ts : list Task) : nat :=
  length (filter (fun t => outstanding t) ts).

Lemma count_outstanding_cons t ts :
  count_outstanding (t :: ts)
  = ((if outstanding t then 1 else 0) + count_outstanding ts)%nat.
Proof.
  unfold count_outstanding. rewrite filter_cons.
  by destruct (outstanding t).
Qed.

Lemma count_outstanding_insert ts i old new :
  ts !! i = Some old →
  (count_outstanding (<[i := new]> ts) + (if outstanding old then 1 else 0)
   = count_outstanding ts + (if outstanding new then 1 else 0))%nat.
Proof.
  revert i. induction ts as [|t ts IH]; intros [|i] Hi; simplify_eq/=.
  - rewrite !count_outstanding_cons. lia.
  - rewrite !count_outstanding_cons. specialize (IH i Hi). lia.
Qed.

Lemma count_outstanding_start (ds : list DatasetItem) :
  count_outstanding ((fun _ => Acquiring 1) <$> ds) = 0%nat.
Proof.
  induction ds as [|d ds IH]; [done|].
  rewrite fmap_cons, count_outstanding_cons. simpl. lia.
Qed.

(** *** What every reachable state satisfies *)

Record invariant (limit : nat) (td : TaxonomyData) (ds : list DatasetItem)
    (s : State) : Prop := {
  inv_length : length (tasks s) = length ds;
  inv_slots : (sem_value s + in_flight s = limit)%nat;
  inv_attempts : ∀ i t, tasks s !! i = Some t →
    match t with
    | Acquiring n | InFlight n => (1 ≤ n ≤ stop_after_attempt)%nat
    | Sleeping n => (1 ≤ n < stop_after_attempt)%nat
    | Returned rows =>
        ∃ dataset_item response,
          ds !! i = Some dataset_item
          ∧ label dataset_item td response = Return rows
    | Raised error => attempt_number error = stop_after_attempt
    end;
  inv_completed_NoDup : NoDup (completed s);
  inv_completed : ∀ i, i ∈ completed s ↔
    ∃ t, tasks s !! i = Some t ∧ finished t = true;
}.

Lemma invariant_start limit td ds : invariant limit td ds (start limit ds).
Proof.
  split; simpl.
  - by rewrite length_fmap.
  - unfold in_flight. simpl.
    fold (count_outstanding ((fun _ => Acquiring 1) <$> ds)).
    rewrite count_outstanding_start. lia.
  - intros i t. rewrite list_lookup_fmap.
    destruct (ds !! i); intros [= <-]. unfold stop_after_attempt. lia.
  - constructor.
  - intros i. split; [by intros ?%elem_of_nil|].
    intros (t & Ht & Hf). rewrite list_lookup_fmap in Ht.
    destruct (ds !! i); simplify_eq/=.
Qed.

Lemma invariant_step limit td ds s ev s' :
  invariant limit td ds s → step td ds s ev = Some s' →
  invariant limit td ds s'.
Proof.
  intros [Hlen Hslots Hatt Hnd Hcompl] Hstep.
  unfold in_flight in Hslots. fold (count_outstanding (tasks s)) in Hslots.
  destruct ev as [i|i response|i]; simpl in Hstep.
  - (* Acquire *)
    destruct (tasks s !! i) as [[n| | | |]|] eqn:Hi; try done.
    destruct (sem_value s) as [|value] eqn:Hv; [done|]. simplify_eq.
    pose proof (count_outstanding_insert _ _ _ (InFlight n) Hi) as Hc.
    simpl in Hc.
    split; simpl.
    + by rewrite length_insert.
    + unfold in_flight; simpl.
      fold (count_outstanding (<[i:=InFlight n]> (tasks s))). lia.
    + intros j t. destruct (decide (i = j)) as [->|Hne].
      * rewrite list_lookup_insert_eq by (by eapply lookup_lt_Some).
        intros [= <-]. by apply (Hatt j (Acquiring n)).
      * rewrite list_lookup_insert_ne by done. apply Hatt.
    + done.
    + intros j. rewrite Hcompl. destruct (decide (i = j)) as [->|Hne].
      * rewrite list_lookup_insert_eq by (by eapply lookup_lt_Some).
        rewrite Hi. split; intros (t & [= <-] & Hf); done.
      * by rewrite list_lookup_insert_ne by done.
  - (* Respond *)
    destruct (tasks s !! i) as [[|n| | |]|] eqn:Hi; try done.
    destruct (ds !! i) as [dataset_item|] eqn:Hds; [|done]. simplify_eq.
    set (t := after_attempt n (label dataset_item td response)).
    pose proof (count_outstanding_insert _ _ _ t Hi) as Hc. simpl in Hc.
    pose proof (Hatt i _ Hi) as Hn. simpl in Hn.
    assert (outstanding t = false) as Ho.
    { unfold t, after_attempt. destruct (label _ _ _); [done|].
      by case_decide. }
    rewrite Ho in Hc.
    assert (i ∉ completed s) as Hfresh.
    { rewrite Hcompl. intros (t' & Ht' & Hf). by simplify_eq. }
    split; simpl.
    + by rewrite length_insert.
    + unfold in_flight; simpl.
      fold (count_outstanding (<[i:=t]> (tasks s))). lia.
    + intros j t'. destruct (decide (i = j)) as [->|Hne].
      * rewrite list_lookup_insert_eq by (by eapply lookup_lt_Some).
        intros [= <-]. unfold t, after_attempt.
        destruct (label dataset_item td response) as [rows|e] eqn:Hl.
        -- eauto.
        -- case_decide; simpl; unfold stop_after_attempt in *; lia.
      * rewrite list_lookup_insert_ne by done. apply Hatt.
    + destruct (finished t); [|done].
      apply NoDup_app. split_and!; [done| |apply NoDup_singleton].
      intros j Hj ->%list_elem_of_singleton. done.
    + intros j. destruct (decide (i = j)) as [->|Hne].
      * rewrite list_lookup_insert_eq by (by eapply lookup_lt_Some).
        destruct (finished t) eqn:Hf.
        -- rewrite elem_of_app, list_elem_of_singleton.
           split; [intros _; eauto|intros _; by right].
        -- split; [done|]. intros (t' & [= <-] & Hf'). congruence.
      * rewrite list_lookup_insert_ne by done.
        destruct (finished t).
        -- rewrite elem_of_app, list_elem_of_singleton, Hcompl.
           split; [intros [?|?]; [done|congruence]|intros ?; by left].
        -- apply Hcompl.
  - (* Wake *)
    destruct (tasks s !! i) as [[| |n| |]|] eqn:Hi; try done. simplify_eq.
    pose proof (count_outstanding_insert _ _ _ (Acquiring (S n)) Hi) as Hc.
    simpl in Hc.
    split; simpl.
    + by rewrite length_insert.
    + unfold in_flight; simpl.
      fold (count_outstanding (<[i:=Acquiring (S n)]> (tasks s))). lia.
    + intros j t. destruct (decide (i = j)) as [->|Hne].
      * rewrite list_lookup_insert_eq by (by eapply lookup_lt_Some).
        intros [= <-]. pose proof (Hatt j _ Hi) as Hn. simpl in Hn. lia.
      * rewrite list_lookup_insert_ne by done. apply Hatt.
    + done.
    + intros j. rewrite Hcompl. destruct (decide (i = j)) as [->|Hne].
      * rewrite list_lookup_insert_eq by (by eapply lookup_lt_Some).
        rewrite Hi. split; intros (t & [= <-] & Hf); done.
      * by rewrite list_lookup_insert_ne by done.
Qed.

Lemma invariant_run limit td ds evs : ∀ s s',
  invariant limit td ds s → run td ds s evs = Some s' →
  invariant limit td ds s'.
Proof.
  induction evs as [|ev evs IH]; intros s s' Hinv; simpl.
  - by intros [= <-].
  - destruct (step td ds s ev) as [s1|] eqn:Hstep; [|done]. simpl.
    apply IH. by eapply invariant_step.
Qed.

Lemma invariant_reachable limit td ds evs s :
  run td ds (start limit ds) evs = Some s → invariant limit td ds s.
Proof. apply invariant_run, invariant_start. Qed.

(** *** What [gather] produces *)

Lemma Sorted_le_seq j n : Sorted le (seq j n).
Proof.
  revert j. induction n as [|n IH]; intros j; simpl; [constructor|].
  constructor; [apply IH|]. destruct n; simpl; constructor. lia.
Qed.

#[local] Instance by_index_total : Total by_index.
Proof. intros a b. unfold by_index. lia. Qed.

(** The results awaited so far: one per completed task, in that order. *)
Lemma awaited_Return ts order res :
  awaited ts order = Some (Return res) →
  res.*1 = order ∧ Forall (fun '(i, rows) => ts !! i = Some (Returned rows)) res.
Proof.
  revert res. induction order as [|i order IH]; intros res; simpl.
  - intros [= <-]. by split.
  - destruct (ts !! i) as [[| | |rows|err]|] eqn:Hi; try done.
    destruct (awaited ts order) as [[res'|e]|]; try done.
    intros [= <-]. destruct (IH res' eq_refl) as [Ho Hall].
    split; [by rewrite fmap_cons, Ho|]. by constructor.
Qed.

Lemma awaited_all_returned ts order :
  (∀ i, i ∈ order → ∃ rows, ts !! i = Some (Returned rows)) →
  ∃ res, awaited ts order = Some (Return res).
Proof.
  induction order as [|i order IH]; intros H; simpl; [eauto|].
  destruct (H i) as [rows ->]; [by left|].
  destruct IH as [res ->]; [|eauto]. intros j Hj. apply H. by right.
Qed.

Lemma awaited_some_raised ts order i error :
  (∀ j, j ∈ order → ∃ t, ts !! j = Some t ∧ finished t = true) →
  i ∈ order → ts !! i = Some (Raised error) →
  ∃ j error', awaited ts order = Some (Raise error')
              ∧ j ∈ order ∧ ts !! j = Some (Raised error').
Proof.
  induction order as [|k order IH]; intros Hfin Hin Hi; [by apply elem_of_nil in Hin|].
  simpl. destruct (Hfin k) as (t & Hk & Hf); [by left|]. rewrite Hk.
  destruct t as [| | |rows|err]; try done.
  - assert (i ∈ order) as Hin'.
    { apply elem_of_cons in Hin as [->|]; [congruence|done]. }
    destruct IH as (j & e' & -> & Hj & Hje); [|done..|].
    { intros j Hj. apply Hfin. by right. }
    exists j, e'. split_and!; [done|by right|done].
  - exists k, err. split_and!; [done|by left|done].
Qed.

Lemma sorted_indices (res : list (nat * list Labelled)) n :
  res.*1 ≡ₚ seq 0 n → (sorted res).*1 = seq 0 n.
Proof.
  intros Hperm. apply (Sorted_unique le).
  - apply Sorted_fmap with (R1 := by_index); [done|].
    apply Sorted_merge_sort, _.
  - apply Sorted_le_seq.
  - unfold sorted. by rewrite merge_sort_Permutation.
Qed.

Lemma NoDup_indices_Permutation (l : list nat) n :
  NoDup l → (∀ i, i ∈ l → (i < n)%nat) → length l = n → l ≡ₚ seq 0 n.
Proof.
  intros Hnd Hlt Hlen. apply submseteq_length_Permutation.
  - apply NoDup_submseteq; [done|]. intros i Hi. apply elem_of_seq.
    specialize (Hlt i Hi). lia.
  - rewrite length_seq. lia.
Qed.

Lemma gather_Return limit td ds s out :
  invariant limit td ds s → gather s = Some (Return out) →
  length out = length ds
  ∧ ∀ i dataset_item, ds !! i = Some dataset_item →
      ∃ rows response,
        out !! i = Some rows
        ∧ tasks s !! i = Some (Returned rows)
        ∧ label dataset_item td response = Return rows.
Proof.
  intros [Hlen _ Hatt Hnd Hcompl]. unfold gather.
  destruct (awaited (tasks s) (completed s)) as [[res|e]|] eqn:Haw; try done.
  case_decide as Hres; [|done]. intros [= <-].
  apply awaited_Return in Haw as [Hord Hall].
  assert (res.*1 ≡ₚ seq 0 (length ds)) as Hperm.
  { rewrite Hord. apply NoDup_indices_Permutation; [done| |].
    - intros i (t & Ht & _)%Hcompl. rewrite <- Hlen. by eapply lookup_lt_Some.
    - by rewrite <- Hord, length_fmap, Hres. }
  pose proof (sorted_indices res _ Hperm) as Hsorted.
  split.
  { rewrite length_fmap, <- (length_fmap fst), Hsorted. apply length_seq. }
  intros i dataset_item Hi.
  assert (i < length ds)%nat as Hlt by (by eapply lookup_lt_Some).
  assert ((sorted res).*1 !! i = Some i) as Hfst.
  { rewrite Hsorted. by apply lookup_seq_lt. }
  rewrite list_lookup_fmap in Hfst.
  destruct (sorted res !! i) as [[k rows]|] eqn:Hk; simplify_eq/=.
  assert ((i, rows) ∈ res) as Hin.
  { unfold sorted in Hk. rewrite <- (merge_sort_Permutation by_index).
    by eapply list_elem_of_lookup_2. }
  rewrite Forall_forall in Hall. specialize (Hall _ Hin). simpl in Hall.
  destruct (Hatt _ _ Hall) as (item' & response & Hitem & Hlabel).
  simplify_eq. exists rows, response.
  split_and!; [|done..]. by rewrite list_lookup_fmap, Hk.
Qed.

Lemma gather_all_returned limit td ds s :
  invariant limit td ds s →
  (∀ t, t ∈ tasks s → ∃ rows, t = Returned rows) →
  ∃ out, gather s = Some (Return out).
Proof.
  intros [Hlen _ Hatt Hnd Hcompl] Hall. unfold gather.
  destruct (awaited_all_returned (tasks s) (completed s)) as [res Hres].
  { intros i (t & Ht & _)%Hcompl.
    destruct (Hall t) as [rows ->]; [by eapply list_elem_of_lookup_2|eauto]. }
  rewrite Hres. apply awaited_Return in Hres as [Hord _].
  assert (completed s ≡ₚ seq 0 (length (tasks s))) as Hperm.
  { apply NoDup_Permutation; [done|apply NoDup_seq|].
    intros i. rewrite Hcompl, elem_of_seq. split.
    - intros (t & Ht & _). apply lookup_lt_Some in Ht. lia.
    - intros [_ Hi]. destruct (lookup_lt_is_Some_2 (tasks s) i) as [t Ht]; [lia|].
      exists t. split; [done|].
      destruct (Hall t) as [rows ->]; [by eapply list_elem_of_lookup_2|done]. }
  rewrite decide_True; [eauto|].
  by rewrite <- (length_fmap fst), Hord, Hperm, length_seq.
Qed.

Lemma gather_some_raised limit td ds s i error :
  invariant limit td ds s → tasks s !! i = Some (Raised error) →
  ∃ j error',
    gather s = Some (Raise error') ∧ tasks s !! j = Some (Raised error')
    ∧ attempt_number error' = stop_after_attempt.
Proof.
  intros [Hlen _ Hatt Hnd Hcompl] Hi. unfold gather.
  destruct (awaited_some_raised (tasks s) (completed s) i error)
    as (j & error' & -> & Hj & Hje); [| |done|].
  - intros j Hj. by apply Hcompl.
  - apply Hcompl. eauto.
  - exists j, error'. split_and!; [done..|]. apply (Hatt j _ Hje).
Qed.

(** A task that has returned rows got them from one of the answers of the
    run. *)
Lemma returned_from_response td ds evs : ∀ s s' i rows,
  run td ds s evs = Some s' →
  tasks s' !! i = Some (Returned rows) →
  tasks s !! i = Some (Returned rows)
  ∨ ∃ response dataset_item,
      Respond i response ∈ evs ∧ ds !! i = Some dataset_item
      ∧ label dataset_item td response = Return rows.
Proof.
  induction evs as [|ev evs IH]; intros s s' i rows; simpl.
  { intros [= <-]. by left. }
  destruct (step td ds s ev) as [s1|] eqn:Hstep; [|done]. simpl.
  intros Hrun Hi. destruct (IH _ _ _ _ Hrun Hi) as [H1|(r & d & Hin & Hd & Hl)];
    last first.
  { right. exists r, d. split_and!; [by right|done..]. }
  destruct ev as [j|j response|j]; simpl in Hstep.
  - destruct (tasks s !! j) as [[n| | | |]|] eqn:Hj; try done.
    destruct (sem_value s); simplify_eq/=.
    destruct (decide (j = i)) as [->|Hne].
    + rewrite list_lookup_insert_eq in H1 by (by eapply lookup_lt_Some). done.
    + rewrite list_lookup_insert_ne in H1 by done. by left.
  - destruct (tasks s !! j) as [[|n| | |]|] eqn:Hj; try done.
    destruct (ds !! j) as [d|] eqn:Hd; simplify_eq/=.
    destruct (decide (j = i)) as [->|Hne].
    + rewrite list_lookup_insert_eq in H1 by (by eapply lookup_lt_Some).
      right. exists response, d. split_and!; [by left|done|].
      unfold after_attempt in H1. destruct (label d td response); [congruence|].
      by case_decide.
    + rewrite list_lookup_insert_ne in H1 by done. by left.
  - destruct (tasks s !! j) as [[| |n| |]|] eqn:Hj; simplify_eq/=.
    destruct (decide (j = i)) as [->|Hne].
    + rewrite list_lookup_insert_eq in H1 by (by eapply lookup_lt_Some). done.
    + rewrite list_lookup_insert_ne in H1 by done. by left.
Qed.

(** *** The attempts of a row *)

Lemma run_snoc td ds evs ev : ∀ s,
  run td ds s (evs ++ [ev]) = s' ← run td ds s evs; step td ds s' ev.
Proof.
  induction evs as [|ev' evs IH]; intros s; simpl.
  - by destruct (step td ds s ev).
  - destruct (step td ds s ev') as [s1|]; [|done]. simpl. apply IH.
Qed.

Lemma attempts_of_snoc i evs ev :
  attempts_of i (evs ++ [ev])
  = attempts_of i evs
      ++ match ev with
         | Respond j response => if decide (j = i) then [response] else []
         | _ => []
         end.
Proof.
  unfold attempts_of. rewrite omap_app. f_equal.
  destruct ev as [j|j r|j]; simpl; try done. by case_decide.
Qed.

(** A step changes the task it names and no other. *)
Lemma step_other td ds s ev s' i :
  step td ds s ev = Some s' →
  match ev with Acquire j | Respond j _ | Wake j => j ≠ i end →
  tasks s' !! i = tasks s !! i.
Proof.
  destruct ev as [j|j r|j]; simpl; intros Hstep Hne.
  - destruct (tasks s !! j) as [[n| | | |]|]; try done.
    destruct (sem_value s); simplify_eq/=. by rewrite list_lookup_insert_ne.
  - destruct (tasks s !! j) as [[|n| | |]|]; try done.
    destruct (ds !! j); simplify_eq/=. by rewrite list_lookup_insert_ne.
  - destruct (tasks s !! j) as [[| |n| |]|]; simplify_eq/=.
    by rewrite list_lookup_insert_ne.
Qed.

Lemma follows_reachable limit td ds evs : ∀ s i dataset_item t,
  run td ds (start limit ds) evs = Some s →
  ds !! i = Some dataset_item → tasks s !! i = Some t →
  follows (label dataset_item td <$> attempts_of i evs) t.
Proof.
  induction evs as [|ev evs IH] using rev_ind; intros s i d t.
  { intros [= <-] Hd. simpl. rewrite list_lookup_fmap, Hd.
    intros [= <-]. simpl. by split. }
  rewrite run_snoc. destruct (run td ds (start limit ds) evs) as [s1|] eqn:Hrun;
    [|done].
  simpl. intros Hstep Hd Ht.
  pose proof (invariant_reachable _ _ _ _ _ Hrun) as Hinv.
  rewrite attempts_of_snoc, fmap_app.
  specialize (IH s1 i d).
  destruct ev as [j|j r|j].
  - destruct (decide (j = i)) as [->|Hne].
    + simpl in Hstep. destruct (tasks s1 !! i) as [[n| | | |]|] eqn:Hi; try done.
      destruct (sem_value s1); simplify_eq/=.
      rewrite list_lookup_insert_eq in Ht by (by eapply lookup_lt_Some).
      simplify_eq. rewrite app_nil_r. by apply (IH (Acquiring n)).
    + rewrite (step_other _ _ _ _ _ i Hstep) in Ht by done.
      simpl. rewrite app_nil_r. by apply IH.
  - destruct (decide (j = i)) as [->|Hne].
    + simpl in Hstep. destruct (tasks s1 !! i) as [[|n| | |]|] eqn:Hi; try done.
      rewrite Hd in Hstep. simplify_eq/=.
      rewrite list_lookup_insert_eq in Ht by (by eapply lookup_lt_Some).
      simplify_eq.
      destruct (IH (InFlight n) eq_refl Hd eq_refl) as [Hfail Hlen].
      pose proof (inv_attempts _ _ _ _ Hinv i _ Hi) as Hn. simpl in Hn.
      unfold stop_after_attempt in Hn.
      unfold after_attempt.
      destruct (label d td r) as [rows|e] eqn:Hl; simpl.
      * eexists. split; [done|]. split; [done|]. lia.
      * unfold stop_after_attempt. case_decide; simpl.
        -- split_and!.
           ++ apply Forall_app. split; [done|]. by constructor.
           ++ rewrite length_app. simpl. lia.
           ++ by rewrite last_snoc.
        -- split.
           ++ apply Forall_app. split; [done|]. by constructor.
           ++ rewrite length_app. simpl. lia.
    + rewrite (step_other _ _ _ _ _ i Hstep) in Ht by done.
      simpl. rewrite app_nil_r. by apply IH.
  - destruct (decide (j = i)) as [->|Hne].
    + simpl in Hstep. destruct (tasks s1 !! i) as [[| |n| |]|] eqn:Hi; try done.
      simplify_eq/=.
      rewrite list_lookup_insert_eq in Ht by (by eapply lookup_lt_Some).
      simplify_eq. rewrite app_nil_r.
      destruct (IH (Sleeping n) eq_refl Hd eq_refl) as [Hfail Hlen].
      split; [done|]. by rewrite Hlen.
    + rewrite (step_other _ _ _ _ _ i Hstep) in Ht by done.
      simpl. rewrite app_nil_r. by apply IH.
Qed.

(** An exception re-raised by [gather] is that of the first task, in the
    order of completion, that raised: every task completed before it
    returned. *)
Lemma awaited_Raise ts order error :
  awaited ts order = Some (Raise error) →
  ∃ before j after,
    order = before ++ j :: after
    ∧ (∀ k, k ∈ before → ∃ rows, ts !! k = Some (Returned rows))
    ∧ ts !! j = Some (Raised error).
Proof.
  induction order as [|i order IH]; [done|]. simpl.
  destruct (ts !! i) as [[| | |rows|err]|] eqn:Hi; try done.
  - destruct (awaited ts order) as [[res|e]|] eqn:Haw; try done.
    intros [= ->]. destruct (IH eq_refl) as (before & j & after & -> & Hb & Hj).
    exists (i :: before), j, after. split_and!; [done| |done].
    intros k [->|Hk]%elem_of_cons; [eauto|by apply Hb].
  - intros [= ->]. exists [], i, order. split_and!; [done| |done].
    by intros k ?%elem_of_nil.
Qed.

(** C2, as amended.  When every attempt of an item has failed and its task
    has ended, the task has raised tenacity's [RetryError] after its third
    attempt, and the [RetryError] carries the exception of that last
    attempt.  [gather] then re-raises the [RetryError] of the first task, in
    the order of completion, that ended so (every task completed before it
    returned its rows), and returns no list of rows: a batch with an
    exhausted item delivers no result. *)
Theorem exhausted_item_raises_from_gather limit td ds evs s i t :
  run td ds (start limit ds) evs = Some s →
  tasks s !! i = Some t → finished t = true →
  (∀ response dataset_item,
     Respond i response ∈ evs → ds !! i = Some dataset_item →
     ∃ e, label dataset_item td response = Raise e) →
  ∃ error,
    t = Raised error ∧ attempt_number error = 3%nat
    ∧ (∃ dataset_item response,
         ds !! i = Some dataset_item
         ∧ length (attempts_of i evs) = 3%nat
         ∧ last (attempts_of i evs) = Some response
         ∧ label dataset_item td response = Raise (last_exception error))
    ∧ (∃ before j after error',
         completed s = before ++ j :: after
         ∧ (∀ k, k ∈ before → ∃ rows, tasks s !! k = Some (Returned rows))
         ∧ tasks s !! j = Some (Raised error')
         ∧ gather s = Some (Raise error'))
    ∧ ∀ out, gather s ≠ Some (Return out).
Proof.
  intros Hrun Hi Hf Hfail.
  pose proof (invariant_reachable _ _ _ _ _ Hrun) as Hinv.
  destruct t as [| | |rows|error]; try done.
  { destruct (returned_from_response _ _ _ _ _ _ _ Hrun Hi)
      as [H0|(r & d & Hin & Hd & Hl)].
    - simpl in H0. rewrite list_lookup_fmap in H0.
      by destruct (ds !! i).
    - destruct (Hfail r d Hin Hd) as [e He]. congruence. }
  exists error.
  destruct (gather_some_raised _ _ _ _ _ _ Hinv Hi) as (j & e' & Hg & Hj & Hn).
  destruct (lookup_lt_is_Some_2 ds i) as [d Hd].
  { rewrite <- (inv_length _ _ _ _ Hinv). by eapply lookup_lt_Some. }
  pose proof (follows_reachable _ _ _ _ _ _ _ _ Hrun Hd Hi) as (_ & Hlen & Hlast).
  rewrite length_fmap in Hlen. rewrite fmap_last in Hlast.
  destruct (last (attempts_of i evs)) as [response|] eqn:Hresponse; [|done].
  split_and!; [done|apply (inv_attempts _ _ _ _ Hinv i _ Hi)| | |].
  - exists d, response. split_and!; [done..|]. simpl in Hlast. congruence.
  - unfold gather in Hg.
    destruct (awaited (tasks s) (completed s)) as [[res|e]|] eqn:Haw;
      try done.
    { by case_decide. }
    injection Hg as ->.
    destruct (awaited_Raise _ _ _ Haw) as (before & k & after & Hc & Hb & Hk).
    exists before, k, after, e'. split_and!; [done..|].
    unfold gather. by rewrite Haw.
  - intros out. by rewrite Hg.
Qed.

Lemma first_row_exhausted_run :
  run taxonomy rows (start 15 rows) first_row_exhausted
  = Some {| sem_value := 15;
            tasks := [Raised timed_out; Returned labelled_second];
            completed := [1; 0]%nat |}.
Proof. reflexivity. Qed.

Lemma first_row_exhausted_fails response dataset_item :
  Respond 0 response ∈ first_row_exhausted →
  rows !! 0%nat = Some dataset_item →
  ∃ e, label dataset_item taxonomy response = Raise e.
Proof.
  intros Hin [= <-]. exists TimeoutError.
  unfold first_row_exhausted in Hin.
  repeat (apply elem_of_cons in Hin as [Hin|Hin]; [by simplify_eq|]).
  by apply elem_of_nil in Hin.
Qed.

Lemma exhausted_item_raises_from_gather_witness :
  ∃ error,
    Raised timed_out = Raised error ∧ attempt_number error = 3%nat
    ∧ (∃ dataset_item response,
         rows !! 0%nat = Some dataset_item
         ∧ length (attempts_of 0 first_row_exhausted) = 3%nat
         ∧ last (attempts_of 0 first_row_exhausted) = Some response
         ∧ label dataset_item taxonomy response
           = Raise (last_exception error))
    ∧ (∃ before j after error',
         [1; 0]%nat = before ++ j :: after
         ∧ (∀ k, k ∈ before →
              ∃ labelled,
                [Raised timed_out; Returned labelled_second] !! k
                = Some (Returned labelled))
         ∧ [Raised timed_out; Returned labelled_second] !! j
           = Some (Raised error')
         ∧ gather {| sem_value := 15;
                     tasks := [Raised timed_out; Returned labelled_second];
                     completed := [1; 0]%nat |} = Some (Raise error'))
    ∧ ∀ out,
        gather {| sem_value := 15;
                  tasks := [Raised timed_out; Returned labelled_second];
                  completed := [1; 0]%nat |} ≠ Some (Return out).
Proof.
  exact (exhausted_item_raises_from_gather 15 taxonomy rows first_row_exhausted
           _ 0%nat (Raised timed_out) first_row_exhausted_run eq_refl eq_refl
           first_row_exhausted_fails).
Defined.

(** C2, as stated, fails: the second row is labelled, every attempt of the
    first row times out, and [gather] raises the [RetryError] of the first
    row; the rows of the second row are in its task and in no result of
    the batch. *)
Lemma exhausted_item_aborts_batch :
  ∃ s,
    run taxonomy rows (start 15 rows) first_row_exhausted = Some s
    ∧ tasks s !! 0%nat = Some (Raised timed_out)
    ∧ tasks s !! 1%nat = Some (Returned labelled_second)
    ∧ gather s = Some (Raise timed_out)
    ∧ ¬ ∃ out, gather s = Some (Return out).
Proof.
  eexists. split; [exact first_row_exhausted_run|].
  split_and!; [reflexivity..|]. by intros [out ?].
Qed.

(** C5.  Whatever the order in which the calls complete, a list returned by
    [gather] has one element per row of the input, and its i-th element is
    the list of rows that the task of the i-th input row returned, labelled
    from that row; and [gather] does return once every task has returned. *)
Theorem gather_preserves_input_order limit td ds evs s :
  run td ds (start limit ds) evs = Some s →
  (∀ out, gather s = Some (Return out) →
     length out = length ds
     ∧ ∀ i dataset_item, ds !! i = Some dataset_item →
         ∃ labelled response,
           out !! i = Some labelled
           ∧ tasks s !! i = Some (Returned labelled)
           ∧ label dataset_item td response = Return labelled)
  ∧ ((∀ t, t ∈ tasks s → ∃ labelled, t = Returned labelled) →
     ∃ out, gather s = Some (Return out)).
Proof.
  intros Hrun. pose proof (invariant_reachable _ _ _ _ _ Hrun) as Hinv.
  split.
  - intros out. by eapply gather_Return.
  - by eapply gather_all_returned.
Qed.

Lemma second_row_first_run :
  run taxonomy rows (start 15 rows) second_row_first
  = Some {| sem_value := 15;
            tasks := [Returned labelled_first; Returned labelled_second];
            completed := [1; 0]%nat |}.
Proof. reflexivity. Qed.

Lemma gather_preserves_input_order_witness :
  run taxonomy rows (start 15 rows) second_row_first
  = Some {| sem_value := 15;
            tasks := [Returned labelled_first; Returned labelled_second];
            completed := [1; 0]%nat |}
  ∧ gather {| sem_value := 15;
              tasks := [Returned labelled_first; Returned labelled_second];
              completed := [1; 0]%nat |}
    = Some (Return [labelled_first; labelled_second])
  ∧ length [labelled_first; labelled_second] = length rows
  ∧ ∃ labelled response,
      [labelled_first; labelled_second] !! 1%nat = Some labelled
      ∧ label {| image := 2%nat |} taxonomy response = Return labelled.
Proof.
  split; [exact second_row_first_run|]. split; [reflexivity|].
  destruct (gather_preserves_input_order 15 taxonomy rows second_row_first _
              second_row_first_run) as [Hout _].
  destruct (Hout [labelled_first; labelled_second] eq_refl) as [Hlen Hith].
  split; [exact Hlen|].
  destruct (Hith 1%nat {| image := 2%nat |} eq_refl)
    as (labelled & response & Hl & _ & Hr).
  exists labelled, response. split; [exact Hl|exact Hr].
Defined.

(** C6.  In every state of every run the number of calls in flight is at
    most the limit the semaphore was created with: the semaphore's value
    and the calls in flight add up to the limit, and a call only ends in
    a task that was in flight, holding its slot, until then. *)
Theorem in_flight_never_exceeds_limit limit td ds evs s :
  run td ds (start limit ds) evs = Some s →
  (in_flight s ≤ limit)%nat
  ∧ (sem_value s + in_flight s = limit)%nat
  ∧ ∀ i response s',
      step td ds s (Respond i response) = Some s' →
      ∃ attempt, tasks s !! i = Some (InFlight attempt)
                 ∧ sem_value s' = S (sem_value s).
Proof.
  intros Hrun.
  destruct (invariant_reachable _ _ _ _ _ Hrun) as [_ Hslots _ _ _].
  split_and!; [lia|done|].
  intros i response s'. simpl.
  destruct (tasks s !! i) as [[|n| | |]|]; try done.
  destruct (ds !! i); [|done]. intros [= <-]. eauto.
Qed.

Lemma in_flight_never_exceeds_limit_witness :
  run taxonomy rows (start 15 rows) [Acquire 0; Acquire 1]
  = Some {| sem_value := 13; tasks := [InFlight 1; InFlight 1];
            completed := [] |}
  ∧ (in_flight {| sem_value := 13; tasks := [InFlight 1; InFlight 1];
                  completed := [] |} ≤ 15)%nat.
Proof.
  split; [reflexivity|].
  exact (proj1 (in_flight_never_exceeds_limit 15 taxonomy rows
                  [Acquire 0; Acquire 1] _ eq_refl)).
Defined.

End OrchestratorFacts.

(** ** JSON: decoding what the encoder wrote *)

Module JsonFacts.
Import Py Json.

Lemma hex_value_hex_digit d :
  0 ≤ d < 16 → hex_value (hex_digit d) = Some d.
Proof.
  intros Hd.
  assert (d ∈ seqZ 0 16) as Hin by (apply elem_of_seqZ; lia).
  clear Hd. revert d Hin. apply Forall_forall. vm_compute. repeat constructor.
Qed.

Lemma decode_escape_u n :
  0 ≤ n < 65536 →
  ∃ h1 h2 h3 h4,
    escape_u n = [BACKSLASH; ord "u"; h1; h2; h3; h4]
    ∧ decode_uXXXX h1 h2 h3 h4 = Some n.
Proof.
  intros Hn. eexists _, _, _, _. split; [reflexivity|].
  unfold decode_uXXXX.
  rewrite !hex_value_hex_digit by (apply Z.mod_pos_bound; lia).
  simpl. f_equal. Z.div_mod_to_equations. lia.
Qed.

Lemma lor_disjoint x y k :
  0 ≤ k → 0 ≤ y < 2 ^ k → Z.lor (x * 2 ^ k) y = x * 2 ^ k + y.
Proof.
  intros Hk Hy. symmetry. apply Z.add_nocarry_lor.
  apply Z.bits_inj'. intros i Hi.
  rewrite Z.land_spec, Z.bits_0.
  destruct (decide (i < k)).
  - by rewrite Z.mul_pow2_bits_low.
  - assert (Z.testbit y i = false) as ->; [|apply andb_false_r].
    destruct (decide (y = 0)) as [->|]; [apply Z.bits_0|].
    apply Z.bits_above_log2; [lia|].
    apply Z.log2_lt_pow2; [lia|].
    apply Z.lt_le_trans with (2 ^ k); [lia|].
    apply Z.pow_le_mono_r; lia.
Qed.

Lemma surrogates c :
  65536 ≤ c < 1114112 →
  let n := c - 65536 in
  let s1 := Z.lor 55296 (Z.land (Z.shiftr n 10) 1023) in
  let s2 := Z.lor 56320 (Z.land n 1023) in
  55296 ≤ s1 ≤ 56319 ∧ 56320 ≤ s2 ≤ 57343 ∧ join_surrogates s1 s2 = c.
Proof.
  intros Hc n s1 s2.
  assert (0 ≤ n < 1048576) as Hn by (unfold n; lia).
  assert (s1 = 55296 + n / 1024) as ->.
  { unfold s1. change 1023 with (Z.ones 10).
    rewrite Z.land_ones, Z.shiftr_div_pow2 by lia.
    change 55296 with (54 * 2 ^ 10) at 1.
    rewrite lor_disjoint; [|lia|apply Z.mod_pos_bound; lia].
    change (2 ^ 10) with 1024. Z.div_mod_to_equations. lia. }
  assert (s2 = 56320 + n mod 1024) as ->.
  { unfold s2. change 1023 with (Z.ones 10).
    rewrite Z.land_ones by lia.
    change 56320 with (55 * 2 ^ 10) at 1.
    rewrite lor_disjoint; [|lia|apply Z.mod_pos_bound; lia].
    change (2 ^ 10) with 1024. lia. }
  split_and!; try (Z.div_mod_to_equations; lia).
  unfold join_surrogates. rewrite Z.shiftl_mul_pow2 by lia.
  rewrite lor_disjoint; [|lia|].
  - change (2 ^ 10) with 1024. Z.div_mod_to_equations. lia.
  - change (2 ^ 10) with 1024. Z.div_mod_to_equations. lia.
Qed.

Lemma scanstring_escape_u_single n R :
  0 ≤ n < 65536 → ¬ 55296 ≤ n ≤ 56319 →
  scanstring (escape_u n ++ R) = prod_map (cons n) id <$> scanstring R.
Proof.
  intros Hn Hs.
  destruct (decode_escape_u n Hn) as (h1 & h2 & h3 & h4 & -> & Hd).
  simpl. rewrite Hd. simpl. by rewrite decide_False.
Qed.

Lemma scanstring_escape_u_pair s1 s2 R :
  55296 ≤ s1 ≤ 56319 → 56320 ≤ s2 ≤ 57343 →
  scanstring (escape_u s1 ++ escape_u s2 ++ R)
  = prod_map (cons (join_surrogates s1 s2)) id <$> scanstring R.
Proof.
  intros H1 H2.
  destruct (decode_escape_u s1) as (h1 & h2 & h3 & h4 & -> & Hd1); [lia|].
  destruct (decode_escape_u s2) as (g1 & g2 & g3 & g4 & -> & Hd2); [lia|].
  simpl. rewrite Hd1. simpl. rewrite decide_True by done.
  rewrite Hd2. simpl. by rewrite decide_True.
Qed.

Lemma scanstring_escape c R :
  code_point c → ¬ high_surrogate c →
  scanstring (escape c ++ R) = prod_map (cons c) id <$> scanstring R.
Proof.
  intros Hc Hh. unfold code_point, high_surrogate in *. unfold escape.
  repeat case_decide; subst; try reflexivity.
  - simpl. rewrite !decide_False by (unfold QUOTE, BACKSLASH in *; lia). done.
  - apply scanstring_escape_u_single; lia.
  - destruct (surrogates c) as (Hs1 & Hs2 & Hj); [lia|].
    simpl in Hs1, Hs2, Hj. rewrite <- (assoc_L (++)).
    rewrite scanstring_escape_u_pair by done. by rewrite Hj.
Qed.

(** What follows the escape of a high surrogate is not the escape of a low
    one, unless the string itself has the two side by side. *)
Lemma scanstring_escape_high c s tail :
  high_surrogate c →
  match s with c' :: _ => ¬ low_surrogate c' | [] => True end →
  Forall code_point s →
  scanstring (escape_u c ++ (c' ← s; escape c') ++ QUOTE :: tail)
  = prod_map (cons c) id
      <$> scanstring ((c' ← s; escape c') ++ QUOTE :: tail).
Proof.
  intros Hc Hnext Hs. unfold high_surrogate, low_surrogate in *.
  destruct (decode_escape_u c) as (h1 & h2 & h3 & h4 & -> & Hd); [lia|].
  cbn [app scanstring]. rewrite decide_False by done.
  rewrite decide_True by done. rewrite decide_True by done.
  rewrite Hd. cbn [mbind option_bind]. rewrite decide_True by done.
  destruct s as [|c' s]; [by destruct tail|].
  apply Forall_cons in Hs as [Hc' _]. unfold code_point in Hc'.
  rewrite bind_cons, <- (assoc_L (++)).
  set (R := (s ≫= escape) ++ QUOTE :: tail).
  unfold escape. repeat case_decide; subst; try reflexivity.
  - cbn [app]. destruct R as [|u R]; [done|].
    rewrite decide_False; [done|]. unfold BACKSLASH in *. lia.
  - destruct (decode_escape_u c') as (g1 & g2 & g3 & g4 & -> & Hd');
      [lia|].
    cbn [app]. rewrite decide_True by done. rewrite Hd'.
    cbn [mbind option_bind]. by rewrite decide_False.
  - destruct (surrogates c') as (Hs1 & Hs2 & _); [lia|].
    cbv zeta in Hs1, Hs2.
    destruct (decode_escape_u
                (Z.lor 55296 (Z.land (Z.shiftr (c' - 65536) 10) 1023)))
      as (g1 & g2 & g3 & g4 & -> & Hd'); [lia|].
    cbn [app]. rewrite decide_True by done. rewrite Hd'.
    cbn [mbind option_bind]. rewrite decide_False; [done|lia].
Qed.

Lemma scanstring_encoded s tail :
  well_formed s →
  scanstring ((c ← s; escape c) ++ QUOTE :: tail) = Some (s, tail).
Proof.
  intros [Hcp Hun]. induction s as [|c s IH]; [done|].
  apply Forall_cons in Hcp as [Hc Hcp]. destruct Hun as [Hnext Hun].
  rewrite bind_cons, <- (assoc_L (++)).
  destruct (decide (high_surrogate c)) as [Hh|Hh].
  - assert (escape c = escape_u c) as ->.
    { unfold escape, high_surrogate, BACKSLASH, QUOTE in *.
      repeat case_decide; (done || lia). }
    rewrite scanstring_escape_high; [by rewrite IH|done| |done].
    destruct s; [done|]. intros ?. by apply Hnext.
  - rewrite scanstring_escape by done. by rewrite IH.
Qed.

Lemma scan_once_string fuel s tail :
  well_formed s →
  scan_once (S fuel) (encode_basestring_ascii s ++ tail) = Some (String s, tail).
Proof.
  intros Hs. unfold encode_basestring_ascii.
  rewrite <- !(assoc_L (++)). simpl.
  by rewrite scanstring_encoded.
Qed.

(** *** The attributes of an item *)

Import Assembly.

Lemma scan_once_attribute fuel attr tail :
  well_formed (Validator.name attr) → well_formed (Validator.value attr) →
  scan_once (5 + fuel) (dumps (dump_attribute attr) ++ tail)
  = Some (dump_attribute attr, tail).
Proof.
  intros Hn Hv. unfold dump_attribute, dumps, encode_basestring_ascii.
  simpl. rewrite <- !(assoc_L (++)). simpl.
  rewrite scanstring_encoded by done. simpl.
  rewrite <- !(assoc_L (++)). simpl.
  rewrite scanstring_encoded by done. reflexivity.
Qed.

Lemma dumps_attribute_head attr :
  ∃ text, dumps (dump_attribute attr) = ord "{" :: text.
Proof. eexists. reflexivity. Qed.

Lemma scan_once_attribute_fuel fuel attr tail :
  (5 ≤ fuel)%nat → well_formed_attribute attr →
  scan_once fuel (dumps (dump_attribute attr) ++ tail)
  = Some (dump_attribute attr, tail).
Proof.
  intros Hfuel [Hn Hv]. do 5 (destruct fuel as [|fuel]; [lia|]).
  by apply (scan_once_attribute fuel).
Qed.

Lemma array_values_S fuel s values :
  array_values (S fuel) s values
  = '(v, s1) ← scan_once fuel s;
    match skip_whitespace s1 with
    | [] => None
    | c :: s2 =>
        if decide (c = ord "]") then Some (Array (values ++ [v]), s2)
        else if decide (c = ord ",") then
          array_values fuel (skip_whitespace s2) (values ++ [v])
        else None
    end.
Proof. reflexivity. Qed.

Lemma join_cons_cons sep part part' parts :
  join sep (part :: part' :: parts) = part ++ sep ++ join sep (part' :: parts).
Proof. reflexivity. Qed.

Lemma join_head (sep part : str) (parts : list str) c text :
  part = c :: text → ∃ text', join sep (part :: parts) = c :: text'.
Proof. intros ->. destruct parts; eexists; reflexivity. Qed.

Lemma array_values_attributes attrs : ∀ attr fuel values tail,
  (length attrs + 5 ≤ fuel)%nat →
  Forall well_formed_attribute (attr :: attrs) →
  array_values (S fuel)
    (join (lit ", ") (dumps <$> (dump_attribute <$> attr :: attrs))
       ++ lit "]" ++ tail) values
  = Some (Array (values ++ (dump_attribute <$> attr :: attrs)), tail).
Proof.
  induction attrs as [|attr' attrs IH]; intros attr fuel values tail Hfuel Hwf;
    apply Forall_cons in Hwf as [Hattr Hwf]; rewrite array_values_S;
    rewrite !fmap_cons.
  - rewrite !fmap_nil. change (join ?sep [?part]) with part.
    rewrite scan_once_attribute_fuel by (done || simpl in *; lia).
    reflexivity.
  - rewrite join_cons_cons, <- !(assoc_L (++)).
    rewrite scan_once_attribute_fuel by (done || simpl in *; lia).
    destruct fuel as [|fuel]; [simpl in *; lia|].
    specialize (IH attr' fuel (values ++ [dump_attribute attr]) tail).
    rewrite !fmap_cons in IH.
    destruct (dumps_attribute_head attr') as [text Htext].
    destruct (join_head (lit ", ") _
                (dumps <$> (dump_attribute <$> attrs)) _ _ Htext)
      as [text' Htext'].
    rewrite Htext' in IH |- *.
    simpl. simpl in IH. rewrite IH; [|simpl in *; lia|done].
    by rewrite <- (assoc_L (++)).
Qed.

Lemma length_join_attributes attrs :
  (length attrs ≤ length (join (lit ", ") (dumps <$> (dump_attribute <$> attrs))))%nat.
Proof.
  induction attrs as [|attr [|attr' attrs] IH]; [done|simpl; lia|].
  rewrite !fmap_cons, join_cons_cons, !length_app.
  rewrite !fmap_cons in IH. simpl in *. lia.
Qed.

Lemma scan_once_array_nonempty fuel text :
  scan_once (S (S fuel)) (ord "[" :: ord "{" :: text)
  = array_values fuel (ord "{" :: text) [].
Proof. reflexivity. Qed.

Lemma loads_dumps_attributes attrs :
  Forall well_formed_attribute attrs →
  loads (dumps (dump_attributes attrs)) = Some (dump_attributes attrs).
Proof.
  intros Hwf. unfold loads, dump_attributes.
  cbn [dumps].
  pose proof (length_join_attributes attrs) as Hlen.
  change (lit "[" ++ ?x) with (ord "[" :: x).
  rewrite length_cons, length_app.
  remember (3 * S (length (join (lit ", ")
                             (dumps <$> (dump_attribute <$> attrs)))
                   + length (lit "]")) + 3)%nat
    as fuel eqn:Hfuel.
  assert (length attrs + 8 ≤ fuel)%nat as Hf by (simpl in Hfuel; lia).
  clear Hfuel Hlen.
  destruct fuel as [|[|[|fuel]]]; [lia..|].
  destruct attrs as [|attr attrs]; [reflexivity|].
  destruct (dumps_attribute_head attr) as [text Htext].
  pose proof (array_values_attributes attrs attr fuel [] []) as Harr.
  rewrite (right_id_L [] (++)) in Harr.
  destruct (join_head (lit ", ") _
              (dumps <$> (dump_attribute <$> attrs)) _ _ Htext)
    as [text' Htext'].
  rewrite !fmap_cons in *.
  rewrite Htext' in Harr |- *.
  change (skip_whitespace (ord "[" :: ?x)) with (ord "[" :: x).
  rewrite <- app_comm_cons, scan_once_array_nonempty, app_comm_cons.
  rewrite Harr; [done|simpl in *; lia|done].
Qed.

End JsonFacts.

(** ** What a JSON decoder delivers *)

Module ExtractionFacts.
Import Py Json Extraction JsonFacts.

Lemma hex_value_range c d : hex_value c = Some d → 0 ≤ d < 16.
Proof.
  unfold hex_value. change (ord "0") with 48. change (ord "9") with 57.
  change (ord "a") with 97. change (ord "f") with 102.
  change (ord "A") with 65. change (ord "F") with 70.
  repeat case_decide; intros [= <-]; lia.
Qed.

Lemma decode_uXXXX_range h1 h2 h3 h4 uni :
  decode_uXXXX h1 h2 h3 h4 = Some uni → 0 ≤ uni < 65536.
Proof.
  unfold decode_uXXXX.
  destruct (hex_value h1) as [d1|] eqn:E1; [|done].
  destruct (hex_value h2) as [d2|] eqn:E2; [|done].
  destruct (hex_value h3) as [d3|] eqn:E3; [|done].
  destruct (hex_value h4) as [d4|] eqn:E4; [|done].
  apply hex_value_range in E1, E2, E3, E4. simpl. intros [= <-]. lia.
Qed.

Lemma unescape_plain esc c :
  unescape esc = Some c → 0 ≤ c < 128.
Proof.
  unfold unescape, QUOTE, BACKSLASH. change (ord "/") with 47.
  repeat case_decide; intros [= <-]; lia.
Qed.

(** The ways [scanstring] returns. *)
Inductive scanned (text : str) (s rest : str) : Prop :=
| scanned_end :
    text = QUOTE :: rest → s = [] → scanned text s rest
| scanned_escape esc c s2 s' :
    text = BACKSLASH :: esc :: s2 → unescape esc = Some c →
    scanstring s2 = Some (s', rest) → s = c :: s' → scanned text s rest
| scanned_literal c s1 s' :
    text = c :: s1 → c ≠ QUOTE → c ≠ BACKSLASH → 32 ≤ c →
    scanstring s1 = Some (s', rest) → s = c :: s' → scanned text s rest
| scanned_single h1 h2 h3 h4 s3 uni s' :
    text = BACKSLASH :: ord "u" :: h1 :: h2 :: h3 :: h4 :: s3 →
    decode_uXXXX h1 h2 h3 h4 = Some uni →
    scanstring s3 = Some (s', rest) → s = uni :: s' →
    (high_surrogate uni →
     ∀ g1 g2 g3 g4 t uni2,
       s3 = BACKSLASH :: ord "u" :: g1 :: g2 :: g3 :: g4 :: t →
       decode_uXXXX g1 g2 g3 g4 = Some uni2 → ¬ low_surrogate uni2) →
    scanned text s rest
| scanned_pair h1 h2 h3 h4 g1 g2 g3 g4 s5 uni uni2 s' :
    text = BACKSLASH :: ord "u" :: h1 :: h2 :: h3 :: h4
             :: BACKSLASH :: ord "u" :: g1 :: g2 :: g3 :: g4 :: s5 →
    decode_uXXXX h1 h2 h3 h4 = Some uni → high_surrogate uni →
    decode_uXXXX g1 g2 g3 g4 = Some uni2 → low_surrogate uni2 →
    scanstring s5 = Some (s', rest) → s = join_surrogates uni uni2 :: s' →
    scanned text s rest.

Lemma scanstring_scanned text s rest :
  scanstring text = Some (s, rest) → scanned text s rest.
Proof.
  destruct text as [|c s1]; [done|]. cbn [scanstring].
  destruct (decide (c = QUOTE)) as [->|Hq].
  { intros [= <- <-]. by apply scanned_end. }
  destruct (decide (c = BACKSLASH)) as [->|Hb]; last first.
  { case_decide; [done|].
    destruct (scanstring s1) as [[s' rest']|] eqn:E; [|done].
    intros [= <- <-]. eapply scanned_literal; eauto. lia. }
  destruct s1 as [|esc s2]; [done|].
  destruct (decide (esc = ord "u")) as [->|Hu]; last first.
  { destruct (unescape esc) as [c|] eqn:Ec; [|done]. simpl.
    destruct (scanstring s2) as [[s' rest']|] eqn:E; [|done].
    intros [= <- <-]. eapply scanned_escape; eauto. }
  destruct s2 as [|h1 [|h2 [|h3 [|h4 s3]]]]; try done.
  destruct (decode_uXXXX h1 h2 h3 h4) as [uni|] eqn:Hd; [|done].
  cbn [mbind option_bind].
  assert (∀ (Hno : high_surrogate uni →
                   ∀ g1 g2 g3 g4 t uni2,
                     s3 = BACKSLASH :: ord "u" :: g1 :: g2 :: g3 :: g4 :: t →
                     decode_uXXXX g1 g2 g3 g4 = Some uni2 →
                     ¬ low_surrogate uni2),
            prod_map (cons uni) id <$> scanstring s3 = Some (s, rest) →
            scanned (BACKSLASH :: ord "u" :: h1 :: h2 :: h3 :: h4 :: s3)
              s rest) as Hsingle.
  { intros Hno. destruct (scanstring s3) as [[s' rest']|] eqn:E; [|done].
    intros [= <- <-]. eapply scanned_single; eauto. }
  destruct (decide (55296 ≤ uni ≤ 56319)) as [Hhigh|Hlow]; last first.
  { apply Hsingle. intros Hh. by destruct Hlow. }
  destruct s3 as [|b [|u s4]].
  { apply Hsingle. by intros _ ???????. }
  { apply Hsingle. by intros _ ???????. }
  destruct (decide (b = BACKSLASH ∧ u = ord "u")) as [[-> ->]|Hbu]; last first.
  { apply Hsingle. intros _ g1 g2 g3 g4 t uni2 [= -> ->]. by destruct Hbu. }
  destruct s4 as [|g1 [|g2 [|g3 [|g4 s5]]]]; try done.
  destruct (decode_uXXXX g1 g2 g3 g4) as [uni2|] eqn:Hd2; [|done].
  cbn [mbind option_bind].
  destruct (decide (56320 ≤ uni2 ≤ 57343)) as [Hl|Hl]; last first.
  { apply Hsingle. intros _ g1' g2' g3' g4' t uni2' [= <- <- <- <- <-].
    rewrite Hd2. by intros [= <-]. }
  destruct (scanstring s5) as [[s' rest']|] eqn:E; [|done].
  intros [= <- <-]. eapply scanned_pair; eauto.
Qed.

Lemma join_surrogates_astral uni uni2 :
  high_surrogate uni → low_surrogate uni2 →
  65536 ≤ join_surrogates uni uni2 < 1114112.
Proof.
  unfold high_surrogate, low_surrogate, join_surrogates. intros Hh Hl.
  rewrite Z.shiftl_mul_pow2 by lia.
  rewrite lor_disjoint by (change (2 ^ 10) with 1024; lia).
  change (2 ^ 10) with 1024. lia.
Qed.

(** What [scanstring] reads from text without surrogates: code points,
    no high surrogate directly before a low one, and a low surrogate in
    front only where the text has its escape in front. *)
Lemma scanstring_well_formed_aux n : ∀ text s rest,
  (length text ≤ n)%nat → Forall scalar_value text →
  scanstring text = Some (s, rest) →
  well_formed s
  ∧ ∀ d s', s = d :: s' → low_surrogate d →
      ∃ g1 g2 g3 g4 t,
        text = BACKSLASH :: ord "u" :: g1 :: g2 :: g3 :: g4 :: t
        ∧ decode_uXXXX g1 g2 g3 g4 = Some d.
Proof.
  unfold well_formed.
  induction n as [|n IH]; intros text s rest Hlen Hsv Hscan.
  { destruct text; [done|simpl in Hlen; lia]. }
  apply scanstring_scanned in Hscan
    as [-> ->
       |esc c s2 s' -> Hc Hs2 ->
       |c s1 s' -> Hq Hb Hc Hs1 ->
       |h1 h2 h3 h4 s3 uni s' -> Hd Hs3 -> Hno
       |h1 h2 h3 h4 g1 g2 g3 g4 s5 uni uni2 s' -> Hd Hh Hd2 Hl Hs5 ->].
  - split; [by split|]. by intros d s' [=].
  - destruct (IH s2 s' rest) as [[Hcp Hun] _];
      [simpl in Hlen; lia|by do 2 apply Forall_cons in Hsv as [_ Hsv]|done|].
    apply unescape_plain in Hc.
    split; [split|].
    + constructor; [unfold code_point; lia|done].
    + split; [|done]. destruct s'; [done|].
      intros [Hh _]. unfold high_surrogate in Hh. lia.
    + intros d s'' [= <- <-] Hl. unfold low_surrogate in Hl. lia.
  - apply Forall_cons in Hsv as [[Hcc Hns] Hsv].
    destruct (IH s1 s' rest) as [[Hcp Hun] _]; [simpl in Hlen; lia|done..|].
    split; [split|].
    + by constructor.
    + split; [|done]. destruct s'; [done|].
      intros [Hh _]. unfold high_surrogate in Hh. lia.
    + intros d s'' [= <- <-] Hl. unfold low_surrogate in Hl. lia.
  - do 6 apply Forall_cons in Hsv as [_ Hsv].
    destruct (IH s3 s' rest) as [[Hcp Hun] Hhead];
      [simpl in Hlen; lia|done..|].
    pose proof (decode_uXXXX_range _ _ _ _ _ Hd) as Hr.
    split; [split|].
    + constructor; [unfold code_point; lia|done].
    + split; [|done]. destruct s' as [|d s'']; [done|].
      intros [Hh Hl].
      destruct (Hhead d s'' eq_refl Hl) as (g1 & g2 & g3 & g4 & t & -> & Hg).
      by apply (Hno Hh g1 g2 g3 g4 t d eq_refl Hg).
    + intros d s'' [= <- <-] Hl. eauto 10.
  - do 12 apply Forall_cons in Hsv as [_ Hsv].
    destruct (IH s5 s' rest) as [[Hcp Hun] _]; [simpl in Hlen; lia|done..|].
    pose proof (join_surrogates_astral _ _ Hh Hl) as Hj.
    split; [split|].
    + constructor; [unfold code_point; lia|done].
    + split; [|done]. destruct s'; [done|].
      intros [Hh' _]. unfold high_surrogate in Hh'. lia.
    + intros d s'' [= <- <-] Hl'. unfold low_surrogate in Hl'. lia.
Qed.

Lemma printable_scalar_escape c : Forall scalar_value (escape c).
Proof.
  assert (∀ d, 0 ≤ d < 16 → scalar_value (hex_digit d)) as Hhex.
  { intros d Hd. unfold hex_digit, scalar_value, code_point.
    change (ord "0") with 48. change (ord "a") with 97. case_decide; lia. }
  assert (∀ n, Forall scalar_value (escape_u n)) as Hu.
  { intros n. unfold escape_u.
    repeat apply Forall_cons_2; try apply Forall_nil_2;
      try (apply Hhex, Z.mod_pos_bound; lia);
      unfold scalar_value, code_point; apply (bool_decide_unpack _);
      by vm_compute. }
  unfold escape.
  repeat case_decide; subst;
    try apply Hu; try (apply Forall_app; split; apply Hu);
    repeat apply Forall_cons_2; try apply Forall_nil_2;
    unfold scalar_value, code_point;
    first [lia | apply (bool_decide_unpack _); by vm_compute].
Qed.

(** The texts a JSON decoder delivers are the well-formed ones. *)
Lemma decoded_well_formed s : decoded s ↔ well_formed s.
Proof.
  split.
  - intros (text & rest & Hsv & Hscan).
    by destruct (scanstring_well_formed_aux _ text s rest (le_n _) Hsv Hscan).
  - intros Hwf. exists ((c ← s; escape c) ++ [QUOTE]), []. split.
    + apply Forall_app. split.
      2:{ apply Forall_singleton. unfold scalar_value, code_point.
          apply (bool_decide_unpack _). by vm_compute. }
      apply Forall_bind, Forall_forall. intros c _.
      apply printable_scalar_escape.
    + by apply scanstring_encoded.
Qed.

Lemma extracted_well_formed attrs :
  Forall extracted_attribute attrs → Forall Assembly.well_formed_attribute attrs.
Proof.
  intros Hall. eapply Forall_impl; [exact Hall|]. intros attr [Hn Hv].
  split; by apply decoded_well_formed.
Qed.

End ExtractionFacts.

(** ** Floating point: the range of a price *)

Module FloatFacts.
Import Float.

(** *** Rounding a quotient to an integer *)

Lemma round_half_even_near N D :
  0 < D → - D ≤ 2 * (round_half_even N D * D - N) ≤ D.
Proof.
  intros HD. unfold round_half_even.
  pose proof (Z.div_mod N D ltac:(lia)) as Hdm.
  pose proof (Z.mod_pos_bound N D HD) as Hr.
  repeat case_decide; try destruct (Z.even _); nia.
Qed.

Lemma round_half_even_unique N D c :
  0 < D → - D < 2 * (c * D - N) < D → round_half_even N D = c.
Proof.
  intros HD Hc. pose proof (round_half_even_near N D HD) as Hm. nia.
Qed.

Lemma round_half_even_le N D K :
  0 < D → N ≤ K * D → round_half_even N D ≤ K.
Proof.
  intros HD HK. unfold round_half_even.
  pose proof (Z.div_mod N D ltac:(lia)) as Hdm.
  pose proof (Z.mod_pos_bound N D HD) as Hr.
  repeat case_decide; try destruct (Z.even _); nia.
Qed.

Lemma round_half_even_ge N D K :
  0 < D → K * D ≤ N → K ≤ round_half_even N D.
Proof.
  intros HD HK. unfold round_half_even.
  pose proof (Z.div_mod N D ltac:(lia)) as Hdm.
  pose proof (Z.mod_pos_bound N D HD) as Hr.
  repeat case_decide; try destruct (Z.even _); nia.
Qed.

(** *** Powers of two *)

Lemma pow2_pos e : 0 < pow2 e.
Proof. unfold pow2. apply Z.pow_pos_nonneg; lia. Qed.

Lemma pow2_nonneg e : 0 ≤ e → pow2 e = 2 ^ e.
Proof. intros. unfold pow2. by rewrite Z.max_r. Qed.

Lemma pow2_nonpos e : e ≤ 0 → pow2 e = 1.
Proof. intros. unfold pow2. by rewrite Z.max_l. Qed.

Lemma pow2_add a b :
  pow2 (a + b) * pow2 (- a) * pow2 (- b)
  = pow2 a * pow2 b * pow2 (- (a + b)).
Proof.
  unfold pow2. rewrite <- !Z.pow_add_r by lia. f_equal. lia.
Qed.

Lemma ilog2_lower a d :
  0 < a → 0 < d → d * pow2 (ilog2 a d) ≤ a * pow2 (- ilog2 a d).
Proof.
  intros Ha Hd. unfold ilog2. case_decide as Htest; [done|]. clear Htest.
  pose proof (Z.log2_spec a Ha) as [HA _].
  pose proof (Z.log2_spec d Hd) as [_ HB].
  pose proof (Z.log2_nonneg a). pose proof (Z.log2_nonneg d).
  set (A := Z.log2 a) in *. set (B := Z.log2 d) in *.
  apply Z.le_trans with (2 ^ Z.succ B * pow2 (A - B - 1)).
  { apply Z.mul_le_mono_nonneg_r; [pose proof (pow2_pos (A - B - 1))|]; lia. }
  apply Z.le_trans with (2 ^ A * pow2 (- (A - B - 1))).
  - unfold pow2. rewrite <- !Z.pow_add_r by lia.
    apply Z.pow_le_mono_r; lia.
  - apply Z.mul_le_mono_nonneg_r; [pose proof (pow2_pos (- (A - B - 1)))|];
      lia.
Qed.

(** The scaled numerator is at least [2 ^ 52] times the scaled
    denominator. *)
Lemma significand_lower n d e :
  0 < n → 0 < d → e = ilog2 n d - (precision - 1) →
  2 ^ 52 * (d * pow2 e) ≤ n * pow2 (- e).
Proof.
  intros Hn Hd He. pose proof (ilog2_lower n d Hn Hd) as Hl.
  assert (ilog2 n d = e + 52) as Hle by (unfold precision in He; lia).
  rewrite Hle in Hl. clear He Hle.
  pose proof (pow2_add e 52) as Hadd.
  rewrite (pow2_nonpos (Z.opp 52)), (pow2_nonneg 52) in Hadd by lia.
  pose proof (pow2_pos (e + 52)). pose proof (pow2_pos (- e)).
  pose proof (pow2_pos e). pose proof (pow2_pos (- (e + 52))).
  apply Z.mul_le_mono_pos_r with (pow2 (- (e + 52))); [done|].
  nia.
Qed.

(** *** The nearest binary64 number *)

Lemma Qden_scaled m e : Z.pos (Qden (scaled m e)) = pow2 (- e).
Proof. simpl. apply Z2Pos.id, pow2_pos. Qed.

Lemma Qnum_scaled m e : Qnum (scaled m e) = m * pow2 e.
Proof. reflexivity. Qed.

Lemma nearest_positive x :
  0 < Qnum x →
  let d := Z.pos (Qden x) in
  let e := ilog2 (Qnum x) d - (precision - 1) in
  nearest x
  = scaled (round_half_even (Qnum x * pow2 (- e)) (d * pow2 e)) e.
Proof.
  intros Hn d e. unfold nearest. rewrite decide_False by lia.
  rewrite Z.abs_eq, Z.sgn_pos by lia. fold d. fold e.
  by rewrite Z.mul_1_l.
Qed.

Lemma nearest_nonneg x : 0 ≤ Qnum x → 0 ≤ Qnum (nearest x).
Proof.
  intros Hn. destruct (decide (Qnum x = 0)) as [H0|H0].
  { unfold nearest. by rewrite decide_True. }
  rewrite nearest_positive by lia. rewrite Qnum_scaled.
  apply Z.mul_nonneg_nonneg; [|pose proof (pow2_pos
    (ilog2 (Qnum x) (Z.pos (Qden x)) - (precision - 1))); lia].
  apply round_half_even_ge.
  - pose proof (pow2_pos (ilog2 (Qnum x) (Z.pos (Qden x)) - (precision - 1))).
    lia.
  - pose proof (pow2_pos (- (ilog2 (Qnum x) (Z.pos (Qden x)) - (precision - 1)))).
    lia.
Qed.

(** Rounding does not cross an integer below [2 ^ 53]. *)
Lemma nearest_le_integer x M :
  0 ≤ Qnum x → 0 ≤ M < 2 ^ 53 →
  (x <= inject_Z M)%Q → (nearest x <= inject_Z M)%Q.
Proof.
  intros Hn HM Hx. destruct (decide (Qnum x = 0)) as [H0|H0].
  { unfold nearest. rewrite decide_True by done.
    unfold Qle. simpl. lia. }
  rewrite nearest_positive by lia.
  set (d := Z.pos (Qden x)). set (n := Qnum x) in *.
  set (e := ilog2 n d - (precision - 1)).
  assert (0 < d) as Hd by (unfold d; lia).
  assert (n ≤ M * d) as HnM.
  { unfold Qle in Hx. simpl in Hx. fold d n in Hx. lia. }
  pose proof (significand_lower n d e ltac:(lia) Hd eq_refl) as Hlow.
  pose proof (pow2_pos e). pose proof (pow2_pos (- e)).
  unfold Qle. rewrite Qden_scaled, Qnum_scaled. simpl. rewrite Z.mul_1_r.
  destruct (decide (e ≤ 0)) as [He|He].
  - rewrite (pow2_nonpos e) in * by done. rewrite Z.mul_1_r.
    apply round_half_even_le; nia.
  - exfalso. rewrite (pow2_nonpos (- e)) in Hlow by lia.
    assert (2 ≤ pow2 e).
    { rewrite pow2_nonneg by lia. change 2 with (2 ^ 1) at 1.
      apply Z.pow_le_mono_r; lia. }
    nia.
Qed.

Lemma nearest_ge_integer x M :
  0 < M < 2 ^ 53 →
  (inject_Z M <= x)%Q → (inject_Z M <= nearest x)%Q.
Proof.
  intros HM Hx.
  set (d := Z.pos (Qden x)). set (n := Qnum x) in *.
  assert (0 < d) as Hd by (unfold d; lia).
  assert (M * d ≤ n) as HnM.
  { unfold Qle in Hx. simpl in Hx. fold d n in Hx. lia. }
  assert (0 < n) as Hn by nia.
  rewrite nearest_positive by done. fold n d.
  set (e := ilog2 n d - (precision - 1)).
  pose proof (significand_lower n d e ltac:(lia) Hd eq_refl) as Hlow.
  pose proof (pow2_pos e). pose proof (pow2_pos (- e)).
  unfold Qle. rewrite Qden_scaled, Qnum_scaled. simpl. rewrite Z.mul_1_r.
  destruct (decide (e ≤ 0)) as [He|He].
  - rewrite (pow2_nonpos e) in * by done. rewrite Z.mul_1_r.
    apply round_half_even_ge; nia.
  - rewrite (pow2_nonpos (- e)) in * by lia. rewrite Z.mul_1_r.
    assert (2 ≤ pow2 e).
    { rewrite pow2_nonneg by lia. change 2 with (2 ^ 1) at 1.
      apply Z.pow_le_mono_r; lia. }
    assert (2 ^ 52 ≤ round_half_even (n * 1) (d * pow2 e)).
    { apply round_half_even_ge; lia. }
    nia.
Qed.

(** *** [random.uniform(10.0, 400.0)] *)

Lemma random_range rng :
  0 ≤ Qnum (random rng).1 < 2 ^ 53
  ∧ Z.pos (Qden (random rng).1) = 2 ^ 53.
Proof.
  unfold random, genrand_uint32. cbn [fst Qnum Qden].
  rewrite !Z.shiftr_div_pow2 by lia.
  set (w1 := words rng (position rng) `mod` 2 ^ 32).
  set (w2 := words _ _ `mod` 2 ^ 32).
  assert (0 ≤ w1 < 2 ^ 32) by (apply Z.mod_pos_bound; lia).
  assert (0 ≤ w2 < 2 ^ 32) by (apply Z.mod_pos_bound; lia).
  split; [|done].
  change (2 ^ 5) with 32. change (2 ^ 6) with 64.
  change (2 ^ 32) with 4294967296 in *.
  change (2 ^ 53) with 9007199254740992.
  Z.div_mod_to_equations. lia.
Qed.

Lemma fsub_400_10 : fsub 400%Q 10%Q = (6860952557322240 # 17592186044416)%Q.
Proof. vm_compute. reflexivity. Qed.

Lemma uniform_range rng :
  (10 <= (uniform 10%Q 400%Q rng).1 <= 400)%Q
  ∧ 0 ≤ Qnum (uniform 10%Q 400%Q rng).1.
Proof.
  unfold uniform.
  destruct (random rng) as [u rng'] eqn:Hu.
  pose proof (random_range rng) as [Hk Hd]. rewrite Hu in Hk, Hd.
  cbn [fst] in *.
  unfold fadd, fmul. rewrite fsub_400_10.
  set (t := nearest (_ * u)%Q).
  assert (0 ≤ Qnum t) as Ht0.
  { apply nearest_nonneg. simpl. lia. }
  assert (t <= inject_Z 390)%Q as Ht.
  { apply nearest_le_integer; [simpl; lia|done|].
    unfold Qle. cbn [Qnum Qden Qmult inject_Z].
    rewrite Pos2Z.inj_mul, Hd.
    change (2 ^ 53) with 9007199254740992 in *. lia. }
  assert (0 <= t)%Q as Ht'.
  { unfold Qle. simpl. lia. }
  split_and!.
  - apply (nearest_ge_integer _ 10); [done|].
    change (inject_Z 10) with 10%Q. change (inject_Z 390) with 390%Q in Ht.
    lra.
  - apply (nearest_le_integer _ 400); [|done|].
    + simpl. lia.
    + change (inject_Z 400) with 400%Q. change (inject_Z 390) with 390%Q in Ht.
      lra.
  - apply nearest_nonneg. simpl. lia.
Qed.

(** *** [round(x, 2)] *)

Lemma round_hundredths x : round x 2 = nearest (hundredths x # 100).
Proof. reflexivity. Qed.

Lemma hundredths_range x :
  (10 <= x <= 400)%Q → 1000 ≤ hundredths x ≤ 40000.
Proof.
  intros [Hlo Hhi]. unfold Qle in *. simpl in Hlo, Hhi.
  unfold hundredths. cbn [Qnum Qden Qmult inject_Z].
  rewrite Pos2Z.inj_mul. change (10 ^ 2) with 100.
  split; [apply round_half_even_ge|apply round_half_even_le]; lia.
Qed.

(** Between 10 and 400 a [float] lies within [2 ^ -45] of the decimal it
    was read from, so that rounding it again finds the same decimal. *)
Lemma hundredths_nearest c :
  1000 ≤ c ≤ 40000 → hundredths (nearest (c # 100)) = c.
Proof.
  intros Hc. rewrite nearest_positive by (simpl; lia).
  cbn [Qnum Qden]. set (d := Z.pos 100).
  set (e := ilog2 c d - (precision - 1)).
  pose proof (significand_lower c d e ltac:(lia) ltac:(done) eq_refl) as Hlow.
  pose proof (pow2_pos e). pose proof (pow2_pos (- e)).
  assert (e ≤ - 44) as He.
  { destruct (decide (e ≤ -44)) as [|Hgt]; [done|exfalso].
    destruct (decide (0 ≤ e)).
    - rewrite (pow2_nonpos (- e)) in Hlow by lia. unfold d in Hlow. nia.
    - rewrite (pow2_nonpos e), (pow2_nonneg (- e)) in Hlow by lia.
      assert (2 ^ (- e) ≤ 2 ^ 43) by (apply Z.pow_le_mono_r; lia).
      assert (0 < 2 ^ (- e)) by (apply Z.pow_pos_nonneg; lia).
      unfold d in Hlow. change (2 ^ 43) with 8796093022208 in *.
      change (2 ^ 52) with 4503599627370496 in *. nia. }
  assert (2 ^ 44 ≤ pow2 (- e)) as HR.
  { rewrite pow2_nonneg by lia. apply Z.pow_le_mono_r; lia. }
  rewrite (pow2_nonpos e) in * by lia.
  pose proof (round_half_even_near (c * pow2 (- e)) (d * 1) ltac:(done))
    as Hm.
  set (m := round_half_even _ _) in *.
  unfold hundredths. cbn [Qnum Qden Qmult inject_Z scaled].
  rewrite Pos2Z.inj_mul, Z2Pos.id by done. change (10 ^ 2) with 100.
  rewrite (pow2_nonpos e) by lia.
  apply round_half_even_unique; [lia|].
  unfold d in Hm. change (2 ^ 44) with 17592186044416 in HR. lia.
Qed.

Lemma round_range x :
  (10 <= x <= 400)%Q →
  (10 <= round x 2 <= 400)%Q ∧ round (round x 2) 2 = round x 2.
Proof.
  intros Hx. pose proof (hundredths_range x Hx) as Hc.
  rewrite !round_hundredths. split_and!.
  - apply (nearest_ge_integer _ 10); [done|]. unfold Qle. simpl. lia.
  - apply (nearest_le_integer _ 400); [simpl; lia|done|].
    unfold Qle. simpl. lia.
  - by rewrite hundredths_nearest.
Qed.

End FloatFacts.

(** ** Flattening and assembly *)

Module AssemblyFacts.
Import Py Orchestrator Assembly AssemblyScenario FloatFacts JsonFacts.

(** *** Flattening *)

Lemma flattened_results_concat results :
  flattened_results results = concat results.
Proof.
  unfold flattened_results.
  induction results as [|sublist results IH]; [done|].
  rewrite bind_cons, IH. simpl. f_equal.
  induction sublist as [|item sublist IHs]; [done|].
  rewrite bind_cons, IHs. done.
Qed.

Lemma length_concat_sum {A} (ls : list (list A)) :
  length (concat ls) = sum_list (length <$> ls).
Proof.
  induction ls as [|l ls IH]; [done|].
  simpl. rewrite length_app, IH. done.
Qed.

Lemma flatten_from_cons id item items rng :
  flatten_from id (item :: items) rng
  = ((flatten_item item (id + 1) rng).1
       :: (flatten_from (id + 1) items (flatten_item item (id + 1) rng).2).1,
     (flatten_from (id + 1) items (flatten_item item (id + 1) rng).2).2).
Proof.
  cbn [flatten_from]. destruct (flatten_item item (id + 1) rng) as [entry rng1].
  cbn [fst snd]. by destruct (flatten_from (id + 1) items rng1).
Qed.

Lemma flatten_from_length items : ∀ id rng,
  length (flatten_from id items rng).1 = length items.
Proof.
  induction items as [|item items IH]; intros id rng; [done|].
  rewrite flatten_from_cons. cbn [fst length]. by rewrite IH.
Qed.

Lemma flatten_from_lookup items : ∀ id rng k item,
  items !! k = Some item →
  ∃ rng',
    (flatten_from id items rng).1 !! k
    = Some (flatten_item item (id + Z.of_nat k + 1) rng').1.
Proof.
  induction items as [|item' items IH]; intros id rng k item Hk; [done|].
  rewrite flatten_from_cons. cbn [fst].
  destruct k as [|k].
  - injection Hk as ->. exists rng. by rewrite Z.add_0_r.
  - destruct (IH (id + 1) (flatten_item item' (id + 1) rng).2 k item Hk)
      as [rng' Hrng'].
    exists rng'. change ((?x :: ?l) !! S k) with (l !! k).
    rewrite Hrng'. do 3 f_equal. lia.
Qed.

Lemma id_flatten_item item id rng : Assembly.id (flatten_item item id rng).1 = id.
Proof. unfold flatten_item. by destruct (Float.uniform _ _ _). Qed.

Lemma flatten_from_ids items : ∀ id rng,
  Assembly.id <$> (flatten_from id items rng).1
  = (fun k => id + Z.of_nat k + 1) <$> seq 0 (length items).
Proof.
  intros id rng. apply list_eq. intros k.
  rewrite !list_lookup_fmap.
  destruct (items !! k) as [item|] eqn:Hk.
  - destruct (flatten_from_lookup items id rng k item Hk) as [rng' ->].
    rewrite lookup_seq_lt by (by eapply lookup_lt_Some).
    cbn [fmap option_fmap option_map]. by rewrite id_flatten_item.
  - apply lookup_ge_None in Hk.
    rewrite (lookup_ge_None_2 (flatten_from id items rng).1)
      by (by rewrite flatten_from_length).
    by rewrite lookup_ge_None_2 by (by rewrite length_seq).
Qed.

(** C7.  Assembly yields one entry per extracted item: as many entries as
    the rows hold items together, the k-th entry being [flatten_item] of
    the k-th item of the rows laid end to end, and the identifiers counting
    1, 2, 3, ... along that order; two rows of one and two items yield
    three entries, numbered 1, 2 and 3. *)
Theorem one_entry_per_item results rng :
  flattened_results results = concat results
  ∧ length (hf_dataset_items results rng).1 = sum_list (length <$> results)
  ∧ (∀ k item,
       concat results !! k = Some item →
       ∃ rng',
         (hf_dataset_items results rng).1 !! k
         = Some (flatten_item item (Z.of_nat k + 1) rng').1)
  ∧ Assembly.id <$> (hf_dataset_items results rng).1
    = (fun k => Z.of_nat k + 1)
        <$> seq 0 (length (hf_dataset_items results rng).1)
  ∧ ∀ a b c,
      Assembly.id <$> (hf_dataset_items [[a]; [b; c]] rng).1 = [1; 2; 3].
Proof.
  unfold hf_dataset_items. rewrite flattened_results_concat.
  split_and!.
  - done.
  - by rewrite flatten_from_length, length_concat_sum.
  - intros k item Hk.
    destruct (flatten_from_lookup _ 0 rng k item Hk) as [rng' Hrng'].
    by exists rng'.
  - by rewrite flatten_from_ids, flatten_from_length.
  - intros a b c. rewrite flattened_results_concat, flatten_from_ids.
    reflexivity.
Qed.

Lemma price_flatten_item item id rng :
  price (flatten_item item id rng).1
  = Float.round (Float.uniform 10%Q 400%Q rng).1 2.
Proof. unfold flatten_item. by destruct (Float.uniform _ _ _). Qed.

Lemma price_in_range item id rng :
  (10 <= price (flatten_item item id rng).1 <= 400)%Q
  ∧ Float.round (price (flatten_item item id rng).1) 2
    = price (flatten_item item id rng).1.
Proof.
  rewrite price_flatten_item. apply round_range, uniform_range.
Qed.

(** C9.  Every price assigned during assembly lies between 10 and 400, and
    rounding it to two decimals again gives the same price. *)
Theorem prices_in_range results rng :
  Forall (fun entry =>
            (10 <= price entry <= 400)%Q
            ∧ Float.round (price entry) 2 = price entry)
    (hf_dataset_items results rng).1.
Proof.
  apply Forall_lookup. intros k entry Hk.
  assert (k < length (hf_dataset_items results rng).1)%nat as Hlt
    by (by eapply lookup_lt_Some).
  unfold hf_dataset_items in *. rewrite flatten_from_length in Hlt.
  destruct (lookup_lt_is_Some_2 _ _ Hlt) as [item Hitem].
  destruct (flatten_from_lookup _ 0 rng k item Hitem) as [rng' Hrng'].
  rewrite Hrng' in Hk. injection Hk as <-. apply price_in_range.
Qed.

Lemma attribute_pairs_dump attrs :
  attribute_pairs (dump_attributes attrs) = Some (pairs_of attrs).
Proof.
  unfold attribute_pairs, dump_attributes, pairs_of.
  apply mapM_Some. apply Forall2_fmap. apply Forall_Forall2_diag.
  by apply Forall_true.
Qed.

(** C10.  [flatten_item] carries the image and the title, brand,
    description, category, subcategory, product type, material and pattern
    of every item unchanged; and for every extraction result, whose
    attribute names and values are text read by the JSON decoder, decoding
    the stored attributes string gives back the dumped attributes, and so
    the (name, value) pairs in their order. *)
Theorem flatten_item_lossless item id rng :
  (image (flatten_item item id rng).1 = labelled_image item
   ∧ title (flatten_item item id rng).1 = Validator.title (metadata item)
   ∧ brand (flatten_item item id rng).1 = Validator.brand (metadata item)
   ∧ description (flatten_item item id rng).1
     = Validator.description (metadata item)
   ∧ category (flatten_item item id rng).1
     = Validator.category (metadata item)
   ∧ subcategory (flatten_item item id rng).1
     = Validator.subcategory (metadata item)
   ∧ product_type (flatten_item item id rng).1
     = Validator.product_type (metadata item)
   ∧ material (flatten_item item id rng).1
     = Validator.material (metadata item)
   ∧ pattern (flatten_item item id rng).1
     = Validator.pattern (metadata item))
  ∧ (Forall Extraction.extracted_attribute
       (Validator.attributes (metadata item)) →
     Json.loads (attributes (flatten_item item id rng).1)
     = Some (dump_attributes (Validator.attributes (metadata item)))
     ∧ Json.loads (attributes (flatten_item item id rng).1)
         ≫= attribute_pairs
       = Some (pairs_of (Validator.attributes (metadata item)))).
Proof.
  unfold flatten_item.
  destruct (Float.uniform _ _ _) as [drawn rng']. cbn [fst image title brand
    description category subcategory product_type material pattern attributes].
  split; [by split_and!|].
  intros Hwf%ExtractionFacts.extracted_well_formed.
  rewrite loads_dumps_attributes by done.
  split; [done|]. apply attribute_pairs_dump.
Qed.

Lemma first_item_extracted :
  Forall Extraction.extracted_attribute
    (Validator.attributes (metadata first_item)).
Proof.
  apply Forall_singleton.
  split; apply ExtractionFacts.decoded_well_formed;
    apply (bool_decide_unpack _); by vm_compute.
Qed.

Lemma flatten_item_lossless_witness :
  Forall Extraction.extracted_attribute
    (Validator.attributes (metadata first_item))
  ∧ Json.loads (attributes (flatten_item first_item 1 generator).1)
    ≫= attribute_pairs
    = Some [(lit "Sleeve Length", lit "Sleeveless")].
Proof.
  split; [exact first_item_extracted|].
  exact (proj2 (proj2 (flatten_item_lossless first_item 1 generator)
                  first_item_extracted)).
Defined.

(** The decoder's text is what the round trip needs: an attribute value
    that holds the two halves of a surrogate pair as two code points, which
    no JSON decoder delivers, is stored as two escapes and decoded as the
    one code point they encode. *)
Lemma surrogate_pair_not_restored :
  Json.loads (attributes (flatten_item paired_surrogates 1 generator).1)
    ≫= attribute_pairs
  = Some [(lit "Print", [128512])]
  ∧ pairs_of (Validator.attributes (metadata paired_surrogates))
    = [(lit "Print", [55357; 56832])]
  ∧ Json.loads (attributes (flatten_item paired_surrogates 1 generator).1)
      ≫= attribute_pairs
    ≠ Some (pairs_of (Validator.attributes (metadata paired_surrogates))).
Proof.
  assert (Json.loads
            (attributes (flatten_item paired_surrogates 1 generator).1)
            ≫= attribute_pairs
          = Some [(lit "Print", [128512])]) as H.
  { unfold flatten_item. destruct (Float.uniform _ _ _) as [drawn rng'].
    cbn [fst attributes]. vm_compute. reflexivity. }
  split; [exact H|]. split; [reflexivity|]. rewrite H. discriminate.
Qed.

End AssemblyFacts.

(** ** The validators: what a verdict depends on *)

Module ValidatorProperties.
Import Py Taxonomy Validator Checks Scenario ValidatorFacts ValidatorSurface.

(** The attribute loop reads the record only for the subcategory it prints
    in an error. *)
Lemma validate_attributes_subcategory self self' sd attrs :
  subcategory self' = subcategory self →
  validate_attributes self' sd attrs = validate_attributes self sd attrs.
Proof.
  intros Hs. induction attrs as [|attr attrs IH]; [done|]. simpl.
  destruct (get _ _); [|by unfold attribute_name_error; rewrite Hs].
  by case_decide.
Qed.

Lemma model_validate_Return_iff td self :
  model_validate self (with_taxonomy td) = Return self
  ↔ Forall (holds td self) (declared_order self).
Proof.
  rewrite model_validate_fail_fast. split.
  - intros H. by apply fail_fast_Return in H as [_ H].
  - apply fail_fast_all_hold.
Qed.

(** X1.  With a taxonomy in the context, a record is accepted exactly when
    its pattern and its material are among the common ones, its category
    and, under it, its subcategory are keys of the taxonomy map, its product
    type is one of that subcategory's, and every one of its attributes,
    however many there are, has a name of that subcategory and a value
    among that name's values. *)
Theorem accepted_iff_every_check_holds td self :
  model_validate self (with_taxonomy td) = Return self
  ↔ pattern self ∈ Pattern (common_attributes td)
    ∧ material self ∈ Material (common_attributes td)
    ∧ ∃ subcategories subcategory_data,
        get (taxonomy_map td) (category self) = Some subcategories
        ∧ get subcategories (subcategory self) = Some subcategory_data
        ∧ product_type self ∈ Taxonomy.product_type subcategory_data
        ∧ Forall (fun attr =>
                    ∃ valid_values,
                      get (Taxonomy.attributes subcategory_data) (name attr)
                      = Some valid_values
                      ∧ value attr ∈ valid_values) (attributes self).
Proof.
  unfold model_validate, validate_material_and_pattern,
    validate_category_and_attributes.
  rewrite require_with_taxonomy. cbn [mbind Result_bind].
  destruct (decide (pattern self ∈ _)) as [Hp|Hp];
    [|split; [done|by intros [? _]]].
  destruct (decide (material self ∈ _)) as [Hm|Hm];
    [|split; [done|by intros (_ & ? & _)]].
  cbn [mbind Result_bind].
  destruct (get (taxonomy_map td) (category self)) as [subs|] eqn:Ec;
    [|split; [done|by intros (_ & _ & ? & ? & [=] & _)]].
  destruct (get subs (subcategory self)) as [sd|] eqn:Es;
    [|split; [done|intros (_ & _ & ? & ? & ? & ? & _); congruence]].
  destruct (decide (product_type self ∈ _)) as [Ht|Ht];
    [|split; [done|intros (_ & _ & ? & ? & ? & ? & ? & _); congruence]].
  destruct (validate_attributes self sd (attributes self)) as [[]|msg] eqn:Ea.
  - apply validate_attributes_Return in Ea. split; [|done]. intros _.
    split_and!; [done..|]. by exists subs, sd.
  - split; [done|]. intros (_ & _ & subs' & sd' & Hs' & Hd' & _ & Ha).
    assert (sd' = sd) as -> by congruence.
    apply (validate_attributes_Return self) in Ha. congruence.
Qed.

(** X3.  The validators never read the title, the brand or the description
    of a record, nor the sizes, colours and occasions of the taxonomy: the
    verdict, and the error when there is one, stay the same when these
    change. *)
Theorem verdict_ignores_free_text_and_stock
    self info td title brand description sizes colors occasions :
  model_validate (with_text self title brand description) info
  = match model_validate self info with
    | Return _ => Return (with_text self title brand description)
    | Raise msg => Raise msg
    end
  ∧ model_validate self (with_taxonomy (with_stock td sizes colors occasions))
    = model_validate self (with_taxonomy td).
Proof.
  split; [|reflexivity].
  unfold model_validate, validate_material_and_pattern,
    validate_category_and_attributes.
  destruct (require_taxonomy info) as [td'|]; [|done].
  cbn [mbind Result_bind with_text pattern material].
  destruct (decide (pattern self ∈ _)); [|reflexivity].
  destruct (decide (material self ∈ _)); [|reflexivity].
  cbn [mbind Result_bind with_text Validator.category Validator.subcategory
       Validator.product_type Validator.attributes].
  destruct (get _ _) as [subs|]; [|reflexivity].
  destruct (get subs _) as [sd|]; [|reflexivity].
  destruct (decide (product_type self ∈ _)); [|reflexivity].
  rewrite (validate_attributes_subcategory self) by done.
  destruct (validate_attributes _ _ _); reflexivity.
Qed.

Lemma holds_with_attributes td self attrs c :
  holds td (with_attributes self attrs) c ↔ holds td self c.
Proof. by destruct c. Qed.

Lemma accepted_with_attributes td self attrs :
  accepted td (with_attributes self attrs)
  ↔ Forall (holds td self)
      ([PatternCheck; MaterialCheck; CategoryCheck; SubcategoryCheck;
        ProductTypeCheck])
    ∧ Forall (fun attr => holds td self (AttributeNameCheck attr)
                          ∧ holds td self (AttributeValueCheck attr)) attrs.
Proof.
  unfold accepted. rewrite model_validate_Return_iff.
  unfold declared_order, attribute_checks. rewrite Forall_app.
  cbn [attributes with_attributes].
  assert (∀ P Q P' Q' : Prop, (P ↔ P') → (Q ↔ Q') → (P ∧ Q ↔ P' ∧ Q'))
    as Hand by tauto.
  apply Hand.
  - rewrite !Forall_forall.
    split; intros H c Hc; apply (holds_with_attributes td self attrs), H, Hc.
  - induction attrs as [|attr attrs IH]; [by split; constructor|].
    rewrite bind_cons. cbn [app]. rewrite !Forall_cons, IH.
    rewrite !holds_with_attributes. tauto.
Qed.

(** X4.  The attributes of a record are checked one by one: a record is
    accepted exactly when it is accepted with no attributes and with each of
    its attributes alone.  Validation asks neither that an attribute name
    occurs at most once nor that any attribute of the subcategory is
    present. *)
Theorem attributes_are_checked_one_by_one td self attrs :
  accepted td (with_attributes self attrs)
  ↔ accepted td (with_attributes self [])
    ∧ Forall (fun attr => accepted td (with_attributes self [attr])) attrs.
Proof.
  rewrite !accepted_with_attributes. rewrite Forall_nil.
  split.
  - intros [H5 Ha]. split; [done|].
    eapply Forall_impl; [exact Ha|]. intros attr Hattr.
    apply accepted_with_attributes. split; [done|]. by constructor.
  - intros [[H5 _] Ha]. split; [done|].
    eapply Forall_impl; [exact Ha|]. intros attr Hattr.
    apply accepted_with_attributes in Hattr as [_ Hattr].
    by inversion Hattr.
Qed.

Lemma validate_attributes_Raise self sd attrs msg :
  validate_attributes self sd attrs = ValueError msg →
  ∃ attr rest,
    attr ∈ attrs
    ∧ (msg = Text "Attribute " :: Fmt (name attr) :: rest
       ∨ msg = Text "Value " :: Fmt (value attr) :: rest).
Proof.
  induction attrs as [|attr attrs IH]; [done|]. simpl.
  destruct (get _ _) as [vs|].
  - case_decide.
    + intros (attr' & rest & Hin & Hmsg)%IH. exists attr', rest.
      split; [by right|done].
    + intros [= <-]. eexists attr, _. split; [by left|]. by right.
  - intros [= <-]. eexists attr, _. split; [by left|]. by left.
Qed.

(** X5.  Every error raised over a taxonomy opens with the name of the
    field that was rejected, followed by the rejected value of the record:
    its pattern, material, category, subcategory or product type, or the
    name or the value of one of its attributes. *)
Theorem rejection_names_field_and_value td self msg :
  model_validate self (with_taxonomy td) = ValueError msg →
  ∃ field rejected rest,
    msg = Text field :: Fmt rejected :: rest
    ∧ ((field, rejected)
         ∈ [("Pattern ", pattern self); ("Material ", material self);
            ("Category ", category self);
            ("Subcategory ", subcategory self);
            ("Product type ", product_type self)]
       ∨ ∃ attr,
           attr ∈ attributes self
           ∧ (field, rejected)
               ∈ [("Attribute ", name attr); ("Value ", value attr)]).
Proof.
  unfold model_validate, validate_material_and_pattern,
    validate_category_and_attributes.
  rewrite require_with_taxonomy. cbn [mbind Result_bind].
  destruct (decide (pattern self ∈ _)); last first.
  { intros [= <-]. eexists _, _, _. split; [reflexivity|]. left. by left. }
  destruct (decide (material self ∈ _)); last first.
  { intros [= <-]. eexists _, _, _. split; [reflexivity|]. left.
    right. by left. }
  cbn [mbind Result_bind].
  destruct (get _ _) as [subs|]; last first.
  { intros [= <-]. eexists _, _, _. split; [reflexivity|]. left.
    do 2 right. by left. }
  destruct (get subs _) as [sd|]; last first.
  { intros [= <-]. eexists _, _, _. split; [reflexivity|]. left.
    do 3 right. by left. }
  destruct (decide (product_type self ∈ _)); last first.
  { intros [= <-]. eexists _, _, _. split; [reflexivity|]. left.
    do 4 right. by left. }
  destruct (validate_attributes self sd (attributes self)) as [[]|msg'] eqn:E;
    [done|].
  cbn [mbind Result_bind]. intros [= <-].
  apply validate_attributes_Raise in E as (attr & rest & Hin & [->| ->]).
  - eexists _, _, _. split; [reflexivity|]. right. exists attr.
    split; [done|]. by left.
  - eexists _, _, _. split; [reflexivity|]. right. exists attr.
    split; [done|]. right. by left.
Qed.

Lemma rejection_names_field_and_value_witness :
  model_validate long_sleeved (with_taxonomy taxonomy)
  = ValueError [Text "Value "; Fmt (lit "Long");
                Text " is not valid for attribute ";
                Fmt (lit "Sleeve Length"); Text ". Valid values are ";
                FmtList [lit "Sleeveless"; lit "Short"]]
  ∧ ∃ field rejected rest,
      [Text "Value "; Fmt (lit "Long");
       Text " is not valid for attribute ";
       Fmt (lit "Sleeve Length"); Text ". Valid values are ";
       FmtList [lit "Sleeveless"; lit "Short"]]
      = Text field :: Fmt rejected :: rest
      ∧ ((field, rejected)
           ∈ [("Pattern ", pattern long_sleeved);
              ("Material ", material long_sleeved);
              ("Category ", category long_sleeved);
              ("Subcategory ", subcategory long_sleeved);
              ("Product type ", product_type long_sleeved)]
         ∨ ∃ attr,
             attr ∈ attributes long_sleeved
             ∧ (field, rejected)
                 ∈ [("Attribute ", name attr); ("Value ", value attr)]).
Proof.
  split; [reflexivity|].
  exact (rejection_names_field_and_value taxonomy long_sleeved _ eq_refl).
Defined.

Lemma holds_extends td td' self c :
  extends td td' → c ∈ declared_order self →
  Forall (holds td self) (declared_order self) → holds td' self c.
Proof.
  intros (Hm & Hp & Hmap) Hc Hall.
  assert (holds td self c) as Hholds.
  { rewrite Forall_forall in Hall. by apply Hall. }
  assert (holds td self SubcategoryCheck) as Hsub.
  { rewrite Forall_forall in Hall. apply Hall.
    unfold declared_order. do 3 right. by left. }
  clear Hall Hc. simpl in Hsub.
  destruct c; simpl in *; unfold subcategory_data_of in *.
  - apply keys_get_is_Some in Hholds as [subs Hsubs].
    destruct (Hmap _ _ Hsubs) as (subs' & Hsubs' & _).
    by eapply get_Some_keys.
  - destruct (get (taxonomy_map td) (category self)) as [subs|] eqn:Hsubs;
      [|done].
    destruct (Hmap _ _ Hsubs) as (subs' & -> & Hsd).
    apply keys_get_is_Some in Hholds as [sd Hget].
    destruct (Hsd _ _ Hget) as (sd' & Hget' & _). by eapply get_Some_keys.
  - destruct (get (taxonomy_map td) (category self)) as [subs|] eqn:Hsubs;
      [|done].
    destruct (Hmap _ _ Hsubs) as (subs' & -> & Hsd). simpl in *.
    destruct (get subs (subcategory self)) as [sd|] eqn:Hget; [|done].
    destruct (Hsd _ _ Hget) as (sd' & -> & Hpt & _). by apply Hpt.
  - destruct (get (taxonomy_map td) (category self)) as [subs|] eqn:Hsubs;
      [|done].
    destruct (Hmap _ _ Hsubs) as (subs' & -> & Hsd). simpl in *.
    destruct (get subs (subcategory self)) as [sd|] eqn:Hget; [|done].
    destruct (Hsd _ _ Hget) as (sd' & -> & _ & Hattrs).
    apply keys_get_is_Some in Hholds as [vs Hvs].
    destruct (Hattrs _ _ Hvs) as (vs' & Hvs' & _). by eapply get_Some_keys.
  - destruct (get (taxonomy_map td) (category self)) as [subs|] eqn:Hsubs;
      [|done].
    destruct (Hmap _ _ Hsubs) as (subs' & -> & Hsd). simpl in *.
    destruct (get subs (subcategory self)) as [sd|] eqn:Hget; [|done].
    destruct (Hsd _ _ Hget) as (sd' & -> & _ & Hattrs).
    destruct (get (Taxonomy.attributes sd) (name attr)) as [vs|] eqn:Hvs;
      [|done].
    destruct (Hattrs _ _ Hvs) as (vs' & -> & Hsubset). by apply Hsubset.
  - by apply Hm.
  - by apply Hp.
Qed.

(** X6.  A record accepted under a taxonomy is accepted under every
    taxonomy that offers at least as much: more categories, subcategories,
    product types, attribute names and values, materials or patterns. *)
Theorem accepted_under_extended_taxonomy td td' self :
  extends td td' →
  model_validate self (with_taxonomy td) = Return self →
  model_validate self (with_taxonomy td') = Return self.
Proof.
  intros Hext. rewrite !model_validate_Return_iff. intros Hall.
  apply Forall_forall. intros c Hc. by eapply holds_extends.
Qed.

Lemma next_season_extends : extends taxonomy SurfaceScenario.next_season.
Proof.
  split_and!.
  - intros x ->%list_elem_of_singleton. right. by left.
  - intros x ->%list_elem_of_singleton. by left.
  - intros c subs. simpl. case_decide as Hc; [|done]. intros [= <-].
    subst c. eexists. split; [reflexivity|].
    intros sub sd. simpl. case_decide as Hs; [|done]. intros [= <-].
    subst sub. eexists. split; [reflexivity|]. split.
    + intros x ->%list_elem_of_singleton. by left.
    + intros a vs. simpl. case_decide as Ha; [|done]. intros [= <-].
      subst a. eexists. split; [reflexivity|].
      intros x [->|[->|[]%elem_of_nil]%elem_of_cons]%elem_of_cons.
      * by left.
      * right. by left.
Qed.

Lemma accepted_under_extended_taxonomy_witness :
  extends taxonomy SurfaceScenario.next_season
  ∧ model_validate tank_top (with_taxonomy taxonomy) = Return tank_top
  ∧ model_validate tank_top (with_taxonomy SurfaceScenario.next_season)
    = Return tank_top.
Proof.
  split; [exact next_season_extends|]. split; [reflexivity|].
  exact (accepted_under_extended_taxonomy taxonomy SurfaceScenario.next_season
           tank_top next_season_extends eq_refl).
Defined.

End ValidatorProperties.

(** ** The batch: attempts, bounds and progress *)

Module ScheduleFacts.
Import Py Taxonomy Validator Checks Scenario Orchestrator BatchScenario.
Import OrchestratorFacts Schedule.
Local Open Scope nat_scope.

(** X7.  In every run a row makes at most three attempts, an attempt
    being one awaited call to [client.chat.completions.create].  An attempt
    that returns validated items is the last attempt of the row, and its
    items are what the task of the row returns; a task that returned got its
    rows from its last attempt; a task raises only after three attempts,
    all failed, with the exception of its third attempt in the
    [RetryError]. *)
Theorem task_outcome_follows_its_attempts limit td ds evs s i dataset_item :
  run td ds (start limit ds) evs = Some s →
  ds !! i = Some dataset_item →
  length (attempts_of i evs) ≤ 3
  ∧ (∀ k response rows,
       attempts_of i evs !! k = Some response →
       label dataset_item td response = Return rows →
       S k = length (attempts_of i evs)
       ∧ tasks s !! i = Some (Returned rows))
  ∧ (∀ rows,
       tasks s !! i = Some (Returned rows) →
       ∃ response, last (attempts_of i evs) = Some response
                   ∧ label dataset_item td response = Return rows)
  ∧ (∀ error,
       tasks s !! i = Some (Raised error) →
       length (attempts_of i evs) = 3
       ∧ attempt_number error = 3
       ∧ ∃ response,
           last (attempts_of i evs) = Some response
           ∧ label dataset_item td response = Raise (last_exception error)).
Proof.
  intros Hrun Hd.
  pose proof (invariant_reachable _ _ _ _ _ Hrun) as Hinv.
  destruct (lookup_lt_is_Some_2 (tasks s) i) as [t Ht].
  { rewrite (inv_length _ _ _ _ Hinv). by eapply lookup_lt_Some. }
  pose proof (follows_reachable _ _ _ _ _ _ _ _ Hrun Hd Ht) as Hf.
  pose proof (inv_attempts _ _ _ _ Hinv i t Ht) as Hn.
  unfold stop_after_attempt in Hn.
  set (outcomes := label dataset_item td <$> attempts_of i evs) in *.
  assert (length (attempts_of i evs) = length outcomes) as Hlen
    by (by unfold outcomes; rewrite length_fmap).
  assert (∀ k response rows,
            attempts_of i evs !! k = Some response →
            label dataset_item td response = Return rows →
            outcomes !! k = Some (Return rows)) as Hk.
  { intros k r rows Hr Hl. unfold outcomes.
    by rewrite list_lookup_fmap, Hr; simpl; rewrite Hl. }
  assert (∀ o, last outcomes = Some o →
            ∃ response, last (attempts_of i evs) = Some response
                        ∧ label dataset_item td response = o) as Hlast.
  { intros o. unfold outcomes. rewrite fmap_last.
    destruct (last (attempts_of i evs)) as [r|]; [|done].
    intros [= <-]. eauto. }
  assert (∀ k rows,
            Forall (fun o => failed o = true) outcomes →
            outcomes !! k ≠ Some (Return rows)) as Hnone.
  { intros k rows Hall Hkr. rewrite Forall_lookup in Hall.
    by specialize (Hall _ _ Hkr). }
  rewrite Hlen.
  destruct t as [n|n|n|rows'|error]; simpl in Hf.
  - destruct Hf as [Hall Hl]. split_and!; [lia| |by rewrite Ht..].
    intros k r rows Hr Hlab. by destruct (Hnone k rows Hall (Hk _ _ _ Hr Hlab)).
  - destruct Hf as [Hall Hl]. split_and!; [lia| |by rewrite Ht..].
    intros k r rows Hr Hlab. by destruct (Hnone k rows Hall (Hk _ _ _ Hr Hlab)).
  - destruct Hf as [Hall Hl]. split_and!; [lia| |by rewrite Ht..].
    intros k r rows Hr Hlab. by destruct (Hnone k rows Hall (Hk _ _ _ Hr Hlab)).
  - destruct Hf as (fails & Hout & Hall & Hl).
    assert (length outcomes = S (length fails)) as Hlo.
    { rewrite Hout, length_app. simpl. lia. }
    split_and!; [lia| | |by rewrite Ht].
    + intros k r rows Hr Hlab. pose proof (Hk _ _ _ Hr Hlab) as Hkr.
      rewrite Hout in Hkr.
      destruct (decide (k < length fails)) as [Hlt|Hge].
      * rewrite lookup_app_l in Hkr by done.
        rewrite Forall_lookup in Hall. by specialize (Hall _ _ Hkr).
      * rewrite lookup_app_r in Hkr by lia.
        destruct (k - length fails) as [|m] eqn:Hm; [|done].
        simpl in Hkr. simplify_eq. split; [lia|done].
    + intros rows. rewrite Ht. intros [= <-]. apply Hlast.
      by rewrite Hout, last_snoc.
  - destruct Hf as (Hall & Hl & Hlst). split_and!; [lia| |by rewrite Ht|].
    + intros k r rows Hr Hlab.
      by destruct (Hnone k rows Hall (Hk _ _ _ Hr Hlab)).
    + intros error'. rewrite Ht. intros [= <-]. split_and!; [done..|].
      by apply Hlast.
Qed.

Lemma exhausted_schedule_runs :
  run taxonomy rows (start 15 rows) first_row_exhausted
  = Some {| sem_value := 15;
            tasks := [Raised timed_out; Returned labelled_second];
            completed := [1; 0]%nat |}.
Proof. reflexivity. Qed.

Lemma task_outcome_follows_its_attempts_witness :
  run taxonomy rows (start 15 rows) first_row_exhausted
  = Some {| sem_value := 15;
            tasks := [Raised timed_out; Returned labelled_second];
            completed := [1; 0]%nat |}
  ∧ rows !! 0 = Some {| image := 1 |}
  ∧ length (attempts_of 0 first_row_exhausted) = 3
  ∧ attempt_number timed_out = 3
  ∧ ∃ response,
      last (attempts_of 0 first_row_exhausted) = Some response
      ∧ label {| image := 1 |} taxonomy response
        = Raise (last_exception timed_out).
Proof.
  split; [exact exhausted_schedule_runs|]. split; [reflexivity|].
  exact (proj2 (proj2 (proj2
           (task_outcome_follows_its_attempts 15 taxonomy rows
              first_row_exhausted _ 0 _ exhausted_schedule_runs eq_refl)))
           timed_out eq_refl).
Defined.

(** *** Bounds *)

Lemma sum_list_with_insert {A} (f : A → nat) (l : list A) i x y :
  l !! i = Some x →
  sum_list_with f (<[i := y]> l) + f x = sum_list_with f l + f y.
Proof.
  revert i. induction l as [|a l IH]; intros [|i] Hi; simplify_eq/=; [lia|].
  specialize (IH i Hi). lia.
Qed.

Lemma step_spends limit td ds s ev s' :
  invariant limit td ds s → step td ds s ev = Some s' →
  sum_list_with events_left (tasks s') + 1
  ≤ sum_list_with events_left (tasks s)
  ∧ sum_list_with attempts_left (tasks s') + (if ends_attempt ev then 1 else 0)
    ≤ sum_list_with attempts_left (tasks s).
Proof.
  intros Hinv Hstep.
  destruct ev as [i|i r|i]; simpl in Hstep.
  - destruct (tasks s !! i) as [[n| | | |]|] eqn:Hi; try done.
    destruct (sem_value s); simplify_eq/=.
    pose proof (inv_attempts _ _ _ _ Hinv i _ Hi) as Hn. simpl in Hn.
    unfold stop_after_attempt in Hn.
    pose proof (sum_list_with_insert events_left _ _ _ (InFlight n) Hi) as He.
    pose proof (sum_list_with_insert attempts_left _ _ _ (InFlight n) Hi) as Hc.
    simpl in He, Hc. lia.
  - destruct (tasks s !! i) as [[|n| | |]|] eqn:Hi; try done.
    destruct (ds !! i) as [d|]; simplify_eq/=.
    pose proof (inv_attempts _ _ _ _ Hinv i _ Hi) as Hn. simpl in Hn.
    unfold stop_after_attempt in Hn.
    set (t := after_attempt n (label d td r)).
    pose proof (sum_list_with_insert events_left _ _ _ t Hi) as He.
    pose proof (sum_list_with_insert attempts_left _ _ _ t Hi) as Hc.
    assert (events_left t + 1 ≤ events_left (InFlight n)
            ∧ attempts_left t + 1 ≤ attempts_left (InFlight n)) as [? ?].
    { unfold t, after_attempt. destruct (label d td r); simpl; [lia|].
      unfold stop_after_attempt. case_decide; simpl; lia. }
    lia.
  - destruct (tasks s !! i) as [[| |n| |]|] eqn:Hi; simplify_eq/=.
    pose proof (inv_attempts _ _ _ _ Hinv i _ Hi) as Hn. simpl in Hn.
    unfold stop_after_attempt in Hn.
    pose proof (sum_list_with_insert events_left _ _ _ (Acquiring (S n)) Hi)
      as He.
    pose proof (sum_list_with_insert attempts_left _ _ _ (Acquiring (S n)) Hi)
      as Hc.
    simpl in He, Hc. lia.
Qed.

Lemma attempts_cons ev evs :
  attempts (ev :: evs) = (if ends_attempt ev then 1 else 0) + attempts evs.
Proof. unfold attempts. rewrite filter_cons. by destruct (ends_attempt ev). Qed.

Lemma run_spends limit td ds evs : ∀ s s',
  invariant limit td ds s → run td ds s evs = Some s' →
  sum_list_with events_left (tasks s') + length evs
  ≤ sum_list_with events_left (tasks s)
  ∧ sum_list_with attempts_left (tasks s') + attempts evs
    ≤ sum_list_with attempts_left (tasks s).
Proof.
  induction evs as [|ev evs IH]; intros s s' Hinv; simpl.
  { intros [= <-]. unfold attempts. simpl. lia. }
  destruct (step td ds s ev) as [s1|] eqn:Hstep; [|done]. simpl. intros Hrun.
  destruct (step_spends _ _ _ _ _ _ Hinv Hstep) as [He Hc].
  destruct (IH s1 s' (invariant_step _ _ _ _ _ _ Hinv Hstep) Hrun) as [He' Hc'].
  rewrite attempts_cons. lia.
Qed.

Lemma start_budget (ds : list DatasetItem) :
  sum_list_with events_left ((fun _ => Acquiring 1) <$> ds) = 8 * length ds
  ∧ sum_list_with attempts_left ((fun _ => Acquiring 1) <$> ds) = 3 * length ds.
Proof.
  induction ds as [|d ds [IH1 IH2]]; [done|].
  rewrite fmap_cons. cbn [sum_list_with events_left attempts_left length]. lia.
Qed.

(** X8.  Every run is bounded: at most three attempts per row end in it,
    and it takes at most eight events per row (three acquisitions of the
    semaphore, three ends of attempts, two sleeps), so the batch cannot
    retry for ever. *)
Theorem batch_is_bounded limit td ds evs s :
  run td ds (start limit ds) evs = Some s →
  attempts evs ≤ 3 * length ds ∧ length evs ≤ 8 * length ds.
Proof.
  intros Hrun.
  destruct (run_spends _ _ _ _ _ _ (invariant_start limit td ds) Hrun)
    as [He Hc].
  destruct (start_budget ds) as [He0 Hc0].
  unfold start in He, Hc. cbn [tasks] in He, Hc. lia.
Qed.

Lemma batch_is_bounded_witness :
  run taxonomy rows (start 15 rows) first_row_exhausted
  = Some {| sem_value := 15;
            tasks := [Raised timed_out; Returned labelled_second];
            completed := [1; 0]%nat |}
  ∧ attempts first_row_exhausted ≤ 3 * length rows
  ∧ length first_row_exhausted ≤ 8 * length rows.
Proof.
  split; [exact exhausted_schedule_runs|].
  exact (batch_is_bounded 15 taxonomy rows first_row_exhausted _
           exhausted_schedule_runs).
Defined.

(** *** Progress *)

Lemma in_flight_task s :
  in_flight s ≠ 0 → ∃ i n, tasks s !! i = Some (InFlight n).
Proof.
  unfold in_flight. intros Hn.
  destruct (filter (fun t => outstanding t) (tasks s)) as [|t l] eqn:E; [done|].
  assert (t ∈ filter (fun t => outstanding t) (tasks s)) as Hin
    by (rewrite E; by left).
  apply list_elem_of_filter in Hin as [Hout Hin].
  apply list_elem_of_lookup in Hin as [i Hi].
  destruct t as [|n| | |]; try done. eauto.
Qed.

Lemma returned_or_not (t : Task) :
  {∃ rows, t = Returned rows} + {∀ rows, t ≠ Returned rows}.
Proof. destruct t; first [by left; eauto | by right]. Qed.

(** X9.  With a semaphore of at least one slot the batch cannot get
    stuck: while a task has not finished, some event can happen; and once
    every task has finished, no event can happen any more, every slot of
    the semaphore is free again and [gather] has returned or raised. *)
Theorem batch_never_deadlocks limit td ds evs s :
  0 < limit →
  run td ds (start limit ds) evs = Some s →
  ((∃ t, t ∈ tasks s ∧ finished t = false) →
   ∃ ev s', step td ds s ev = Some s')
  ∧ ((∀ t, t ∈ tasks s → finished t = true) →
     (∀ ev, step td ds s ev = None)
     ∧ sem_value s = limit
     ∧ ∃ result, gather s = Some result).
Proof.
  intros Hlimit Hrun.
  pose proof (invariant_reachable _ _ _ _ _ Hrun) as Hinv.
  assert (∀ i n, tasks s !! i = Some (InFlight n) →
            ∃ ev s', step td ds s ev = Some s') as Hrespond.
  { intros i n Hi.
    destruct (lookup_lt_is_Some_2 ds i) as [d Hd].
    { rewrite <- (inv_length _ _ _ _ Hinv). by eapply lookup_lt_Some. }
    exists (Respond i NoAnswerInTime). simpl. rewrite Hi, Hd. eauto. }
  split.
  - intros (t & [i Hi]%list_elem_of_lookup & Hf).
    destruct t as [n|n|n| |]; try done.
    + destruct (sem_value s) as [|value] eqn:Hv.
      * destruct (in_flight_task s) as (j & m & Hj); [|by eapply Hrespond].
        pose proof (inv_slots _ _ _ _ Hinv). lia.
      * exists (Acquire i). simpl. rewrite Hi, Hv. eauto.
    + by eapply Hrespond.
    + exists (Wake i). simpl. rewrite Hi. eauto.
  - intros Hall. split_and!.
    + assert (∀ i t, tasks s !! i = Some t → finished t = true) as Hfin.
      { intros i t Hi. apply Hall. by eapply list_elem_of_lookup_2. }
      intros [i|i r|i]; simpl;
        destruct (tasks s !! i) as [t|] eqn:Hi; try done;
        specialize (Hfin _ _ Hi); destruct t; try done.
    + destruct (decide (in_flight s = 0)) as [Hz|Hnz].
      * pose proof (inv_slots _ _ _ _ Hinv). lia.
      * destruct (in_flight_task s Hnz) as (i & n & Hi).
        by specialize (Hall _ (list_elem_of_lookup_2 _ _ _ Hi)).
    + destruct (Forall_Exists_dec _ _ returned_or_not (tasks s)) as [Hret|Hex].
      * destruct (gather_all_returned _ _ _ _ Hinv) as [out Hout]; [|eauto].
        rewrite Forall_forall in Hret. exact Hret.
      * apply Exists_exists in Hex as (t & Hin & Hnot).
        specialize (Hall _ Hin). destruct t as [| | |rows|error]; try done.
        { by destruct (Hnot rows). }
        apply list_elem_of_lookup in Hin as [i Hi].
        destruct (gather_some_raised _ _ _ _ _ _ Hinv Hi)
          as (j & e' & Hg & _). eauto.
Qed.

Lemma batch_never_deadlocks_witness :
  0 < 15
  ∧ run taxonomy rows (start 15 rows) [Acquire 0; Acquire 1]
    = Some {| sem_value := 13; tasks := [InFlight 1; InFlight 1];
              completed := [] |}
  ∧ ((∃ t, t ∈ [InFlight 1; InFlight 1] ∧ finished t = false) →
     ∃ ev s',
       step taxonomy rows
         {| sem_value := 13; tasks := [InFlight 1; InFlight 1];
            completed := [] |} ev = Some s').
Proof.
  assert (0 < 15) as Hlimit by lia.
  split; [exact Hlimit|]. split; [reflexivity|].
  exact (proj1 (batch_never_deadlocks 15 taxonomy rows [Acquire 0; Acquire 1]
                  _ Hlimit eq_refl)).
Defined.

(** *** What the rows of a batch are *)

Lemma element_errors_nil td candidates :
  element_errors td candidates = [] →
  Forall (fun candidate =>
            model_validate candidate (with_taxonomy td) = Return candidate)
    candidates.
Proof.
  unfold element_errors.
  change (@pair nat ItemMetadata) with (fun i c => (@id nat i, c : ItemMetadata)).
  generalize (@id nat).
  induction candidates as [|c cs IH]; intros h; [constructor|].
  cbn [imap omap list_omap].
  destruct (model_validate c (with_taxonomy td)) as [r|msg] eqn:Hc; [|done].
  intros Hcs. constructor.
  - rewrite ValidatorFacts.model_validate_fail_fast in Hc |- *.
    by destruct (ValidatorFacts.fail_fast_Return _ _ _ _ Hc) as [-> _].
  - by apply (IH (h ∘ S)).
Qed.

Lemma label_Return dataset_item td response rows :
  label dataset_item td response = Return rows →
  Forall (fun item =>
            labelled_image item = image dataset_item
            ∧ model_validate (metadata item) (with_taxonomy td)
              = Return (metadata item)) rows.
Proof.
  unfold label, create. destruct response as [candidates| |]; [|done..].
  destruct (element_errors td candidates) eqn:E; [|done].
  intros [= <-]. apply element_errors_nil in E.
  apply Forall_fmap. eapply Forall_impl; [exact E|]. by intros c Hc.
Qed.

Lemma gather_Return_validated limit td ds s out :
  invariant limit td ds s → gather s = Some (Return out) →
  Forall2 (fun dataset_item labelled =>
             Forall (fun item =>
                       labelled_image item = image dataset_item
                       ∧ model_validate (metadata item) (with_taxonomy td)
                         = Return (metadata item)) labelled)
    ds out.
Proof.
  intros Hinv Hg.
  destruct (gather_Return _ _ _ _ _ Hinv Hg) as [Hlen Hrows].
  apply Forall2_same_length_lookup. split; [done|].
  intros i d labelled Hd Hl.
  destruct (Hrows i d Hd) as (rows & response & Hout & _ & Hlabel).
  simplify_eq. by eapply label_Return.
Qed.

(** X11.  Every item of every row that [gather] returns carries the
    image of the dataset row at the same position and has passed validation
    against the taxonomy given to the batch. *)
Theorem gathered_items_are_validated limit td ds evs s out :
  run td ds (start limit ds) evs = Some s →
  gather s = Some (Return out) →
  Forall2 (fun dataset_item labelled =>
             Forall (fun item =>
                       labelled_image item = image dataset_item
                       ∧ model_validate (metadata item) (with_taxonomy td)
                         = Return (metadata item)) labelled)
    ds out.
Proof.
  intros Hrun. eapply gather_Return_validated, invariant_reachable, Hrun.
Qed.

Lemma interleaved_schedule_runs :
  run taxonomy rows (start 15 rows) second_row_first
  = Some {| sem_value := 15;
            tasks := [Returned labelled_first; Returned labelled_second];
            completed := [1; 0]%nat |}.
Proof. reflexivity. Qed.

Lemma gathered_items_are_validated_witness :
  run taxonomy rows (start 15 rows) second_row_first
  = Some {| sem_value := 15;
            tasks := [Returned labelled_first; Returned labelled_second];
            completed := [1; 0]%nat |}
  ∧ gather {| sem_value := 15;
              tasks := [Returned labelled_first; Returned labelled_second];
              completed := [1; 0]%nat |}
    = Some (Return [labelled_first; labelled_second])
  ∧ Forall2 (fun dataset_item labelled =>
               Forall (fun item =>
                         labelled_image item = image dataset_item
                         ∧ model_validate (metadata item)
                             (with_taxonomy taxonomy)
                           = Return (metadata item)) labelled)
      rows [labelled_first; labelled_second].
Proof.
  split; [exact interleaved_schedule_runs|]. split; [reflexivity|].
  exact (gathered_items_are_validated 15 taxonomy rows second_row_first _ _
           interleaved_schedule_runs eq_refl).
Defined.

End ScheduleFacts.

(** ** The catalogue: what is stored *)

Module StoredFacts.
Import Py Taxonomy Validator Checks Scenario Orchestrator BatchScenario.
Import Assembly AssemblyScenario Stored.
Import AssemblyFacts.

(** *** The attributes column *)

Lemma printable_lit_unpack (s : str) :
  bool_decide (Forall printable s) = true → Forall printable s.
Proof. intros H. by apply bool_decide_eq_true in H. Qed.

Lemma printable_hex_digit d : 0 ≤ d < 16 → printable (Json.hex_digit d).
Proof.
  intros Hd. unfold Json.hex_digit, printable.
  change (ord "0") with 48. change (ord "a") with 97. case_decide; lia.
Qed.

Lemma printable_escape_u n : Forall printable (Json.escape_u n).
Proof.
  unfold Json.escape_u.
  repeat apply Forall_cons_2; try apply Forall_nil_2;
    try (apply printable_hex_digit, Z.mod_pos_bound; lia);
    by vm_compute.
Qed.

Lemma printable_escape c : Forall printable (Json.escape c).
Proof.
  unfold Json.escape.
  repeat case_decide; subst;
    try apply printable_escape_u;
    try (apply Forall_app; split; apply printable_escape_u);
    repeat apply Forall_cons_2; try apply Forall_nil_2;
    try done; by vm_compute.
Qed.

Lemma printable_encode s : Forall printable (Json.encode_basestring_ascii s).
Proof.
  unfold Json.encode_basestring_ascii.
  rewrite !Forall_app.
  split_and!; [by apply Forall_singleton; vm_compute|
               |by apply Forall_singleton; vm_compute].
  apply Forall_bind. apply Forall_forall. intros c _. apply printable_escape.
Qed.

Lemma printable_join sep parts :
  Forall printable sep → Forall (Forall printable) parts →
  Forall printable (Json.join sep parts).
Proof.
  intros Hsep. induction 1 as [|part parts Hpart Hparts IH]; [constructor|].
  destruct parts as [|part' parts]; [done|].
  change (Json.join sep (part :: part' :: parts))
    with (part ++ sep ++ Json.join sep (part' :: parts)).
  rewrite !Forall_app. auto.
Qed.

Lemma printable_dumps_attributes attrs :
  Forall printable (Json.dumps (dump_attributes attrs)).
Proof.
  assert (∀ s, bool_decide (Forall printable (lit s)) = true →
               Forall printable (lit s)) as Hlit.
  { intros s. apply printable_lit_unpack. }
  cbn [Json.dumps dump_attributes].
  rewrite !Forall_app. split_and!; [by apply Hlit| |by apply Hlit].
  apply printable_join; [by apply Hlit|].
  apply Forall_fmap, Forall_fmap, Forall_forall. intros attr _.
  cbn [Json.dumps dump_attribute fmap list_fmap fst snd compose].
  rewrite !Forall_app. split_and!; [by apply Hlit| |by apply Hlit].
  apply printable_join; [by apply Hlit|].
  apply Forall_cons_2; [|apply Forall_cons_2; [|apply Forall_nil_2]];
    rewrite !Forall_app;
    (split_and!; [apply printable_encode|by apply Hlit|apply printable_encode]).
Qed.

(** X12.  The attributes string of a catalogue entry holds printable
    ASCII only, whatever code points the attribute names and values hold. *)
Theorem attributes_column_is_ascii item id rng :
  Forall printable (attributes (flatten_item item id rng).1).
Proof.
  unfold flatten_item. destruct (Float.uniform _ _ _) as [drawn rng'].
  apply printable_dumps_attributes.
Qed.

(** *** The generator *)

Lemma advance_0 rng : advance rng 0 = rng.
Proof. destruct rng as [w p]. unfold advance. simpl. f_equal. lia. Qed.

Lemma advance_advance rng n m : advance (advance rng n) m = advance rng (n + m).
Proof. unfold advance. simpl. f_equal. lia. Qed.

Lemma uniform_advances a b rng : (Float.uniform a b rng).2 = advance rng 2.
Proof.
  unfold Float.uniform, Float.random, Float.genrand_uint32, advance. simpl.
  f_equal. lia.
Qed.

Lemma flatten_item_advances item id rng :
  (flatten_item item id rng).2 = advance rng 2.
Proof.
  unfold flatten_item. rewrite <- (uniform_advances 10%Q 400%Q).
  by destruct (Float.uniform _ _ _).
Qed.

Lemma flatten_from_advances items : ∀ id rng,
  (flatten_from id items rng).2 = advance rng (2 * length items).
Proof.
  induction items as [|item items IH]; intros id rng.
  - simpl. by rewrite advance_0.
  - rewrite flatten_from_cons. cbn [snd]. rewrite IH, flatten_item_advances.
    rewrite advance_advance. f_equal. simpl. lia.
Qed.

Lemma flatten_from_lookup_advance items : ∀ id rng k item,
  items !! k = Some item →
  (flatten_from id items rng).1 !! k
  = Some (flatten_item item (id + Z.of_nat k + 1) (advance rng (2 * k))).1.
Proof.
  induction items as [|item' items IH]; intros id rng k item Hk; [done|].
  rewrite flatten_from_cons. cbn [fst].
  destruct k as [|k].
  - injection Hk as ->. rewrite Nat.mul_0_r, advance_0. simpl.
    by rewrite Z.add_0_r.
  - change ((?x :: ?l) !! S k) with (l !! k).
    rewrite (IH (id + 1) _ k item Hk), flatten_item_advances, advance_advance.
    do 3 f_equal; [lia|]. f_equal. lia.
Qed.

(** X13.  Assembly draws two words of the generator per entry: with [n]
    entries the generator ends [2 * n] words further, and the k-th entry
    (from 0) is [flatten_item] of the k-th item run on the generator
    [2 * k] words further, so that its price is drawn from those two words
    and no others. *)
Theorem entries_draw_consecutive_words results rng :
  (hf_dataset_items results rng).2
  = advance rng (2 * length (concat results))
  ∧ ∀ k item,
      concat results !! k = Some item →
      (hf_dataset_items results rng).1 !! k
      = Some (flatten_item item (Z.of_nat k + 1) (advance rng (2 * k))).1
      ∧ price (flatten_item item (Z.of_nat k + 1) (advance rng (2 * k))).1
        = Float.round
            (Float.uniform 10%Q 400%Q (advance rng (2 * k))).1 2.
Proof.
  unfold hf_dataset_items. rewrite flattened_results_concat. split.
  - apply flatten_from_advances.
  - intros k item Hk. split; [|apply price_flatten_item].
    by rewrite (flatten_from_lookup_advance _ 0 rng k item Hk).
Qed.

(** X14.  Every price is a whole number of cents between 10.00 and
    400.00, read as a [float]: the float nearest to [cents / 100]. *)
Theorem price_is_a_whole_number_of_cents item id rng :
  ∃ cents,
    1000 ≤ cents ≤ 40000
    ∧ price (flatten_item item id rng).1 = Float.nearest (cents # 100)
    ∧ Float.hundredths (price (flatten_item item id rng).1) = cents.
Proof.
  rewrite price_flatten_item.
  destruct (FloatFacts.uniform_range rng) as [Hrange _].
  pose proof (FloatFacts.hundredths_range _ Hrange) as Hc.
  exists (Float.hundredths (Float.uniform 10%Q 400%Q rng).1).
  split; [done|]. rewrite FloatFacts.round_hundredths. split; [done|].
  by apply FloatFacts.hundredths_nearest.
Qed.

(** *** From the batch to the catalogue *)

Lemma elem_of_concat {A} (x : A) (ls : list (list A)) :
  x ∈ concat ls ↔ ∃ l, x ∈ l ∧ l ∈ ls.
Proof.
  induction ls as [|l' ls IH]; simpl.
  - split; [by intros ?%elem_of_nil|by intros (l & _ & ?%elem_of_nil)].
  - rewrite elem_of_app, IH. split.
    + intros [?|(l & ? & ?)].
      * exists l'. split; [done|by left].
      * exists l. split; [done|by right].
    + intros (l & Hx & [->|?]%elem_of_cons); [by left|right; eauto].
Qed.

(** X15.  When [gather] returns, every entry of the catalogue assembled
    from its result is the flattening of an item that passed validation
    against the taxonomy of the batch, and carries the image of a row of the
    source dataset. *)
Theorem catalogue_entries_come_from_validated_items
    limit td ds evs s results rng :
  run td ds (start limit ds) evs = Some s →
  gather s = Some (Return results) →
  Forall (fun entry =>
            ∃ item dataset_item rng',
              entry = (flatten_item item (Assembly.id entry) rng').1
              ∧ dataset_item ∈ ds
              ∧ image entry = Orchestrator.image dataset_item
              ∧ model_validate (metadata item) (with_taxonomy td)
                = Return (metadata item))
    (hf_dataset_items results rng).1.
Proof.
  intros Hrun Hg.
  pose proof (OrchestratorFacts.invariant_reachable _ _ _ _ _ Hrun) as Hinv.
  pose proof (ScheduleFacts.gather_Return_validated _ _ _ _ _ Hinv Hg) as Hall.
  apply Forall_lookup. intros k entry Hk.
  assert (k < length (hf_dataset_items results rng).1)%nat as Hlt
    by (by eapply lookup_lt_Some).
  unfold hf_dataset_items in *. rewrite flattened_results_concat in *.
  rewrite flatten_from_length in Hlt.
  destruct (lookup_lt_is_Some_2 _ _ Hlt) as [item Hitem].
  rewrite (flatten_from_lookup_advance _ 0 rng k item Hitem) in Hk.
  apply (inj Some) in Hk as <-.
  assert (item ∈ concat results) as Hin by (by eapply list_elem_of_lookup_2).
  apply elem_of_concat in Hin as (labelled & Hil & Hlr).
  apply list_elem_of_lookup in Hlr as [i Hi].
  destruct (Forall2_lookup_r _ _ _ _ _ Hall Hi) as (d & Hd & Hrow).
  rewrite Forall_forall in Hrow. destruct (Hrow item Hil) as [Himg Hvalid].
  exists item, d, (advance rng (2 * k)).
  split_and!; [|by eapply list_elem_of_lookup_2| |done].
  - by rewrite id_flatten_item.
  - rewrite <- Himg. unfold flatten_item.
    by destruct (Float.uniform _ _ _).
Qed.

Lemma catalogue_entries_come_from_validated_items_witness :
  run taxonomy rows (start 15 rows) second_row_first
  = Some {| sem_value := 15;
            tasks := [Returned labelled_first; Returned labelled_second];
            completed := [1; 0]%nat |}
  ∧ gather {| sem_value := 15;
              tasks := [Returned labelled_first; Returned labelled_second];
              completed := [1; 0]%nat |}
    = Some (Return [labelled_first; labelled_second])
  ∧ Forall (fun entry =>
              ∃ item dataset_item rng',
                entry = (flatten_item item (Assembly.id entry) rng').1
                ∧ dataset_item ∈ rows
                ∧ image entry = Orchestrator.image dataset_item
                ∧ model_validate (metadata item) (with_taxonomy taxonomy)
                  = Return (metadata item))
      (hf_dataset_items [labelled_first; labelled_second] generator).1.
Proof.
  split; [exact ScheduleFacts.interleaved_schedule_runs|]. split; [reflexivity|].
  exact (catalogue_entries_come_from_validated_items 15 taxonomy rows
           second_row_first _ _ generator
           ScheduleFacts.interleaved_schedule_runs eq_refl).
Defined.

End StoredFacts.

(** ** Surrogate pairs: what the stored attributes keep *)

Module PairsFacts.
Import Py Json Assembly Pairs JsonFacts.

Lemma join_pairs_cons_cons c c' s :
  join_pairs (c :: c' :: s)
  = if decide (high_surrogate c ∧ low_surrogate c') then
      join_surrogates c c' :: join_pairs s
    else c :: join_pairs (c' :: s).
Proof. reflexivity. Qed.

(** Induction two characters at a time. *)
Lemma pairs_ind (P : str → Prop) :
  P [] → (∀ c, P [c]) →
  (∀ c c' s, P s → P (c' :: s) → P (c :: c' :: s)) →
  ∀ s, P s.
Proof.
  intros Hnil Hone Hstep s.
  assert (P s ∧ ∀ c, P (c :: s)) as [? _]; [|done].
  induction s as [|c' s [IH1 IH2]]; [by split|].
  split; [apply IH2|]. intros c. apply Hstep; [done|apply IH2].
Qed.

Lemma join_surrogates_value h l :
  high_surrogate h → low_surrogate l →
  join_surrogates h l = 65536 + (h - 55296) * 1024 + (l - 56320).
Proof.
  unfold high_surrogate, low_surrogate, join_surrogates. intros Hh Hl.
  rewrite Z.shiftl_mul_pow2 by lia.
  rewrite lor_disjoint by (change (2 ^ 10) with 1024; lia).
  change (2 ^ 10) with 1024. lia.
Qed.

Lemma escape_surrogate c :
  55296 ≤ c ≤ 57343 → escape c = escape_u c.
Proof.
  intros Hc. unfold escape, BACKSLASH, QUOTE.
  repeat case_decide; (done || lia).
Qed.

Lemma escape_join_surrogates h l :
  high_surrogate h → low_surrogate l →
  escape (join_surrogates h l) = escape_u h ++ escape_u l.
Proof.
  intros Hh Hl. rewrite join_surrogates_value by done.
  unfold high_surrogate, low_surrogate in *.
  set (c := 65536 + (h - 55296) * 1024 + (l - 56320)).
  assert (65536 ≤ c < 1114112) as Hc by (unfold c; lia).
  unfold escape, BACKSLASH, QUOTE.
  repeat case_decide; try lia.
  assert (0 ≤ c - 65536 < 1048576) as Hn by lia.
  assert (Z.lor 55296 (Z.land (Z.shiftr (c - 65536) 10) 1023) = h) as ->.
  { change 1023 with (Z.ones 10).
    rewrite Z.land_ones, Z.shiftr_div_pow2 by lia.
    change 55296 with (54 * 2 ^ 10) at 1.
    rewrite lor_disjoint; [|lia|apply Z.mod_pos_bound; lia].
    change (2 ^ 10) with 1024. unfold c. Z.div_mod_to_equations. lia. }
  assert (Z.lor 56320 (Z.land (c - 65536) 1023) = l) as ->.
  { change 1023 with (Z.ones 10). rewrite Z.land_ones by lia.
    change 56320 with (55 * 2 ^ 10) at 1.
    rewrite lor_disjoint; [|lia|apply Z.mod_pos_bound; lia].
    change (2 ^ 10) with 1024. unfold c. Z.div_mod_to_equations. lia. }
  done.
Qed.

Lemma escape_join_pairs s :
  (c ← join_pairs s; escape c) = (c ← s; escape c).
Proof.
  induction s as [|c|c c' s IH1 IH2] using pairs_ind; [done..|].
  rewrite join_pairs_cons_cons. case_decide as Hp.
  - destruct Hp as [Hh Hl]. rewrite !bind_cons, IH1.
    rewrite escape_join_surrogates by done.
    unfold high_surrogate, low_surrogate in *.
    rewrite !escape_surrogate by lia. by rewrite <- (assoc_L (++)).
  - by rewrite !bind_cons, IH2, bind_cons.
Qed.

Lemma code_point_join_surrogates h l :
  high_surrogate h → low_surrogate l →
  code_point (join_surrogates h l) ∧ 65536 ≤ join_surrogates h l.
Proof.
  intros Hh Hl. rewrite join_surrogates_value by done.
  unfold high_surrogate, low_surrogate, code_point in *. lia.
Qed.

Lemma join_pairs_head c s :
  ∃ d t, join_pairs (c :: s) = d :: t ∧ (d = c ∨ 65536 ≤ d).
Proof.
  destruct s as [|c' s]; [eexists _, _; split; [reflexivity|by left]|].
  rewrite join_pairs_cons_cons. case_decide as Hp.
  - eexists _, _. split; [reflexivity|]. right. destruct Hp as [Hh Hl].
    apply (code_point_join_surrogates c c' Hh Hl).
  - eexists _, _. split; [reflexivity|]. by left.
Qed.

Lemma well_formed_join_pairs s :
  Forall code_point s → well_formed (join_pairs s).
Proof.
  unfold well_formed. pattern s. apply pairs_ind; clear s;
    [|intros c|intros c c' s IH1 IH2]; intros Hs.
  - by split.
  - split; [done|]. by split.
  - apply Forall_cons in Hs as [Hc Hs].
    pose proof Hs as Hs'. apply Forall_cons in Hs' as [Hc' Hs'].
    rewrite join_pairs_cons_cons. case_decide as Hp.
    + destruct Hp as [Hh Hl]. destruct (IH1 Hs') as [Hcp Hun].
      split; [constructor; [by apply code_point_join_surrogates|done]|].
      split; [|done].
      destruct (join_pairs s) as [|d t]; [done|].
      intros [Hhigh _].
      pose proof (code_point_join_surrogates c c' Hh Hl) as [_ ?].
      unfold high_surrogate in Hhigh. lia.
    + destruct (IH2 Hs) as [Hcp Hun]. split; [by constructor|].
      split; [|done].
      destruct (join_pairs_head c' s) as (d & t & -> & [->|Hd]).
      * done.
      * intros [_ Hlow]. unfold low_surrogate in Hlow. lia.
Qed.

Lemma length_join_pairs s : (length (join_pairs s) ≤ length s)%nat.
Proof.
  induction s as [|c|c c' s IH1 IH2] using pairs_ind; [done..|].
  rewrite join_pairs_cons_cons. case_decide; simpl in *; lia.
Qed.

Lemma join_pairs_fixed s : join_pairs s = s ↔ unpaired s.
Proof.
  induction s as [|c|c c' s IH1 IH2] using pairs_ind.
  - done.
  - by split.
  - rewrite join_pairs_cons_cons. case_decide as Hp.
    + split.
      * intros Heq. pose proof (length_join_pairs s) as Hlen.
        apply (f_equal length) in Heq. simpl in Heq. lia.
      * by intros [Hn _].
    + change (unpaired (c :: c' :: s))
        with (¬ (high_surrogate c ∧ low_surrogate c') ∧ unpaired (c' :: s)).
      split.
      * intros Heq. split; [done|]. apply IH2. congruence.
      * intros [_ Hu]. apply IH2 in Hu. congruence.
Qed.

Lemma encode_join_pairs s :
  encode_basestring_ascii (join_pairs s) = encode_basestring_ascii s.
Proof. unfold encode_basestring_ascii. by rewrite escape_join_pairs. Qed.

Lemma dumps_joined attrs :
  dumps (dump_attributes (joined <$> attrs)) = dumps (dump_attributes attrs).
Proof.
  cbn [dumps dump_attributes]. do 3 f_equal.
  rewrite <- !list_fmap_compose. apply list_fmap_ext. intros i attr _.
  cbn [compose dumps dump_attribute joined fmap list_fmap fst snd
       Validator.name Validator.value].
  by rewrite !encode_join_pairs.
Qed.

Lemma joined_fixed attr :
  joined attr = attr
  ↔ unpaired (Validator.name attr) ∧ unpaired (Validator.value attr).
Proof.
  destruct attr as [n v]. unfold joined. simpl.
  rewrite <- !join_pairs_fixed. split; [by intros [= -> ->]|].
  by intros [-> ->].
Qed.

#[local] Instance dump_attribute_inj : Inj (=) (=) dump_attribute.
Proof. intros [n v] [n' v']. unfold dump_attribute. by intros [= -> ->]. Qed.

(** X16.  [json.dumps] writes a high surrogate followed by a low one
    exactly as it writes the code point the two encode.  So for attributes
    made of code points, decoding the stored string gives the attributes
    with every such pair joined, and gives back the attributes themselves
    exactly when no name and no value holds such a pair. *)
Theorem surrogate_pairs_are_stored_joined attrs :
  Forall (fun attr => Forall code_point (Validator.name attr)
                      ∧ Forall code_point (Validator.value attr)) attrs →
  dumps (dump_attributes attrs) = dumps (dump_attributes (joined <$> attrs))
  ∧ loads (dumps (dump_attributes attrs))
    = Some (dump_attributes (joined <$> attrs))
  ∧ (loads (dumps (dump_attributes attrs)) = Some (dump_attributes attrs)
     ↔ Forall (fun attr => unpaired (Validator.name attr)
                           ∧ unpaired (Validator.value attr)) attrs).
Proof.
  intros Hcp.
  assert (loads (dumps (dump_attributes attrs))
          = Some (dump_attributes (joined <$> attrs))) as Hloads.
  { rewrite <- dumps_joined. apply loads_dumps_attributes.
    apply Forall_fmap. eapply Forall_impl; [exact Hcp|].
    intros attr [Hn Hv]. split; by apply well_formed_join_pairs. }
  split_and!; [by rewrite dumps_joined|done|].
  rewrite Hloads. unfold dump_attributes. split.
  - intros [= Heq]. apply (inj (fmap dump_attribute)) in Heq.
    apply Forall_forall. intros attr Hin. apply joined_fixed.
    apply list_elem_of_lookup in Hin as [i Hi].
    apply (f_equal (fun l => l !! i)) in Heq.
    rewrite list_lookup_fmap, Hi in Heq. simpl in Heq. congruence.
  - intros Hun. assert (joined <$> attrs = attrs) as ->; [|done].
    clear Hcp Hloads. induction Hun as [|attr attrs Ha _ IH]; [done|].
    rewrite fmap_cons, IH. f_equal. by apply joined_fixed.
Qed.

Lemma surrogate_pairs_are_stored_joined_witness :
  Forall (fun attr => Forall code_point (Validator.name attr)
                      ∧ Forall code_point (Validator.value attr))
    [{| Validator.name := lit "Print"; Validator.value := [55357; 56832] |}]
  ∧ loads (dumps (dump_attributes
                    [{| Validator.name := lit "Print";
                        Validator.value := [55357; 56832] |}]))
    = Some (dump_attributes
              (joined <$> [{| Validator.name := lit "Print";
                              Validator.value := [55357; 56832] |}])).
Proof.
  assert (Forall (fun attr => Forall code_point (Validator.name attr)
                              ∧ Forall code_point (Validator.value attr))
            [{| Validator.name := lit "Print";
                Validator.value := [55357; 56832] |}]) as Hcp.
  { apply (bool_decide_unpack _). vm_compute. exact I. }
  split; [exact Hcp|].
  exact (proj1 (proj2 (surrogate_pairs_are_stored_joined _ Hcp))).
Defined.

End PairsFacts.

(** ** The dictionary behind a catalogue entry *)

Module ColumnsFacts.
Import Py Orchestrator Assembly.

(** X17.  The dictionary [flatten_item] returns has the twelve keys
    image, title, brand, description, category, subcategory, product_type,
    attributes, material, pattern, id and price, in this order: the key
    attributes keeps the place [model_dump] gave it while its value is
    replaced by the JSON string, and id and price come last.  Its values are
    the fields of the catalogue entry. *)
Theorem flatten_item_columns item id rng :
  Columns.flatten_item item id rng
  = (Return (Columns.of_entry (flatten_item item id rng).1),
     (flatten_item item id rng).2)
  ∧ keys (Columns.of_entry (flatten_item item id rng).1)
    = [lit "image"; lit "title"; lit "brand"; lit "description";
       lit "category"; lit "subcategory"; lit "product_type";
       lit "attributes"; lit "material"; lit "pattern"; lit "id";
       lit "price"].
Proof.
  split; [|reflexivity].
  unfold Columns.flatten_item, flatten_item.
  destruct (Float.uniform _ _ _) as [drawn rng']. reflexivity.
Qed.

End ColumnsFacts.

(** ** The cells' displays *)

Module DisplayFacts.
Import Py Orchestrator Assembly Display AssemblyFacts.

Lemma concat_nil {A} (ls : list (list A)) :
  concat ls = [] ↔ Forall (fun l => l = []) ls.
Proof.
  induction ls as [|l ls IH]; simpl.
  - split; [constructor|done].
  - rewrite Forall_cons, <- IH. split.
    + by intros [-> ->]%app_eq_nil.
    + by intros [-> ->].
Qed.

(** X18.  The cell that flattens the results and the cell that assembles
    the catalogue each end by displaying a first element: they raise
    [IndexError] exactly when no row yielded an item, and otherwise display
    the first item of the first row that has one, as entry number 1. *)
Theorem first_item_is_displayed_unless_none results rng :
  (Forall (fun sublist => sublist = []) results
   ↔ first_metadata results = Raise list_index_out_of_range)
  ∧ (Forall (fun sublist => sublist = []) results
     ↔ first_entry results rng = Raise list_index_out_of_range)
  ∧ ∀ item,
      head (concat results) = Some item →
      first_metadata results = Return (Columns.model_dump (metadata item))
      ∧ first_entry results rng = Return (flatten_item item 1 rng).1.
Proof.
  unfold first_metadata, first_entry, subscript, hf_dataset_items.
  rewrite flattened_results_concat, <- concat_nil.
  destruct (concat results) as [|item items] eqn:E.
  - split_and!; [done..|]. by intros item [=].
  - rewrite flatten_from_cons. cbn [fst lookup list_lookup].
    split_and!; [by split..|]. intros item' [= <-]. done.
Qed.

End DisplayFacts.
